(** * A shallow embedding of the ai-faucet program (TypeScript)

    Sources embedded:
    - [src/unnamed/part_000]: the multi-network faucet ([getNetworksFromInput],
      [parseAIResponse], [makeTransaction], [getTransactionStatus],
      [makeMultipleTransactions]).
    - [src/src/index.ts]: the single-network faucet ([parseAIResponse] with a
      regex fallback, [makeTransaction], the status polling of [main]).
    - [src/guide.txt]: the [networks] registry module ([networks],
      [getAvailableNetworks], [getNetwork]).

    JavaScript strings are modelled as Rocq [string]s, one 8-bit character per
    code unit read as Latin-1. *)

From Stdlib Require Import String Ascii List ZArith Bool Lia.
From Stdlib Require Import Numbers.DecimalString.
Import ListNotations.
Open Scope string_scope.
Set Warnings "-register-all".

(** ** Results of fallible code: a value or a thrown [Error] with its message *)

Inductive result (A : Type) : Type :=
| Ok (a : A)
| Err (msg : string).
Arguments Ok {A} a.
Arguments Err {A} msg.

Definition bind {A B} (m : result A) (k : A -> result B) : result B :=
  match m with Ok a => k a | Err e => Err e end.

Notation "x <- m ;; k" := (bind m (fun x => k))
  (at level 61, m at next level, right associativity).

(** ** String helpers with JavaScript semantics *)

Definition nl : ascii := "010"%char.

Fixpoint str_drop (n : nat) (s : string) : string :=
  match n, s with
  | O, _ => s
  | S _, EmptyString => EmptyString
  | S n', String _ r => str_drop n' r
  end.

(** [String.prototype.includes]: does [needle] occur in [hay]? *)
Fixpoint includes (hay needle : string) : bool :=
  prefix needle hay ||
  match hay with
  | EmptyString => false
  | String _ r => includes r needle
  end.

(** [String.prototype.toLowerCase] on Latin-1 code units: A-Z and the
    Latin-1 capitals U+00C0..U+00DE (except U+00D7) move up by 32. *)
Definition lower_char (c : ascii) : ascii :=
  let n := nat_of_ascii c in
  if (((65 <=? n) && (n <=? 90)) || ((192 <=? n) && (n <=? 222) && negb (n =? 215)))%nat
  then ascii_of_nat (n + 32) else c.

Fixpoint toLowerCase (s : string) : string :=
  match s with
  | EmptyString => EmptyString
  | String c r => String (lower_char c) (toLowerCase r)
  end.

(** White space removed by [String.prototype.trim] (the Latin-1 part of it:
    TAB, LF, VT, FF, CR, SPACE and NBSP). *)
Definition is_ws (c : ascii) : bool :=
  let n := nat_of_ascii c in
  (((9 <=? n) && (n <=? 13)) || (n =? 32) || (n =? 160))%nat.

Fixpoint trim_start (s : string) : string :=
  match s with
  | EmptyString => EmptyString
  | String c r => if is_ws c then trim_start r else s
  end.

Fixpoint trim_end (s : string) : string :=
  match s with
  | EmptyString => EmptyString
  | String c r =>
      let r' := trim_end r in
      if is_ws c && String.eqb r' EmptyString then EmptyString else String c r'
  end.

Definition trim (s : string) : string := trim_end (trim_start s).

(** ** [response.replace(/```json\n?|\n?```/g, '')]

    [fence_match s] is the regex tried at the start of [s]: the first
    alternative [```json\n?] (greedy, so with the newline first), then the
    second [\n?```] (again with the newline first).  It returns the rest of
    the input after the match. *)
Definition fence_match (s : string) : option string :=
  if prefix ("```json" ++ String nl EmptyString) s then Some (str_drop 8 s)
  else if prefix "```json" s then Some (str_drop 7 s)
  else if prefix (String nl "```") s then Some (str_drop 4 s)
  else if prefix "```" s then Some (str_drop 3 s)
  else None.

(** The global replacement scans left to right: a match is deleted and the
    scan resumes after it, otherwise one character is kept. [fuel] bounds
    the number of steps; [String.length s] steps always suffice. *)
Fixpoint strip_fences_aux (fuel : nat) (s : string) : string :=
  match fuel with
  | O => s
  | S f =>
      match fence_match s with
      | Some r => strip_fences_aux f r
      | None =>
          match s with
          | EmptyString => EmptyString
          | String c r => String c (strip_fences_aux f r)
          end
      end
  end.

Definition strip_fences (s : string) : string := strip_fences_aux (String.length s) s.

(** ** JSON values as returned by [JSON.parse]

    Numbers are modelled by integer values ([JNum]); objects by their list
    of members in source order (a later duplicate key overrides an earlier
    one, as in [JSON.parse]). *)
Inductive json : Type :=
| JNull
| JBool (b : bool)
| JNum (z : Z)
| JStr (s : string)
| JArr (l : list json)
| JObj (kvs : list (string * json)).

(** Own property [k] of an object: the last member with that key. *)
Definition obj_get (kvs : list (string * json)) (k : string) : option json :=
  fold_left (fun acc kv => if String.eqb (fst kv) k then Some (snd kv) else acc)
    kvs None.

(** Property read [v.k]: [None] inside [Ok] is [undefined]; reading a
    property of [null] throws a [TypeError].  None of the keys read by the
    program ([error], [to], [networks], [explanation]) is a property of the
    prototypes of strings, numbers, booleans or arrays. *)
Definition get_prop (v : json) (k : string) : result (option json) :=
  match v with
  | JNull => Err ("TypeError: Cannot read properties of null (reading '" ++ k ++ "')")
  | JObj kvs => Ok (obj_get kvs k)
  | _ => Ok None
  end.

(** JavaScript truthiness of a property value ([undefined] is [None]). *)
Definition truthy (v : option json) : bool :=
  match v with
  | None | Some JNull => false
  | Some (JBool b) => b
  | Some (JNum z) => negb (Z.eqb z 0)
  | Some (JStr s) => negb (String.eqb s EmptyString)
  | Some (JArr _) | Some (JObj _) => true
  end.

Definition Z_to_string (z : Z) : string :=
  NilEmpty.string_of_int (Z.to_int z).

Fixpoint join_comma (l : list string) : string :=
  match l with
  | [] => EmptyString
  | [s] => s
  | s :: r => s ++ "," ++ join_comma r
  end.

(** [ToString] of a JSON value; [None] when it throws a [TypeError].  An
    object converts through [Object.prototype.toString] unless it has an own
    [toString] member, which (being data, not a function) makes the
    conversion throw; an array converts by [join(',')], where [null] becomes
    the empty string. *)
Fixpoint js_to_string (v : json) : option string :=
  match v with
  | JNull => Some "null"
  | JBool b => Some (if b then "true" else "false")
  | JNum z => Some (Z_to_string z)
  | JStr s => Some s
  | JArr l =>
      let fix elems (l : list json) : option (list string) :=
        match l with
        | [] => Some []
        | JNull :: r => option_map (cons EmptyString) (elems r)
        | x :: r =>
            match js_to_string x, elems r with
            | Some s, Some ss => Some (s :: ss)
            | _, _ => None
            end
        end in
      option_map join_comma (elems l)
  | JObj kvs =>
      match obj_get kvs "toString" with
      | Some _ => None
      | None => Some "[object Object]"
      end
  end.

(** [/^0x[a-fA-F0-9]{40}$/i] on a string. *)
Definition is_hex (c : ascii) : bool :=
  let n := nat_of_ascii c in
  (((48 <=? n) && (n <=? 57)) || ((65 <=? n) && (n <=? 70)) || ((97 <=? n) && (n <=? 102)))%nat.

Definition address_re (s : string) : bool :=
  match s with
  | String "0" (String x rest) =>
      (Ascii.eqb x "x" || Ascii.eqb x "X") && (String.length rest =? 40)%nat &&
      forallb is_hex (list_ascii_of_string rest)
  | _ => false
  end.

(** [RegExp.prototype.test] converts its argument with [ToString]. *)
Definition regex_test_address (v : option json) : result bool :=
  match v with
  | None => Ok (address_re "undefined")
  | Some x =>
      match js_to_string x with
      | Some s => Ok (address_re s)
      | None => Err "TypeError: Cannot convert object to primitive value"
      end
  end.

(** ** [parseAIResponse] of part_000 *)

Definition UNDERSTANDING_FAILURE : string := "AI could not understand the request".
Definition MALFORMED_RESPONSE : string :=
  "Failed to parse AI response. Please try again with a simpler request.".

(** The required-field and address checks of the [try] block. *)
Definition validate_fields (parsed : json) : result json :=
  to <- get_prop parsed "to" ;;
  nets <- get_prop parsed "networks" ;;
  expl <- get_prop parsed "explanation" ;;
  if negb (truthy to) || negb (truthy nets) || negb (truthy expl) then
    Err "Missing required fields in response"
  else
    ok <- regex_test_address to ;;
    if negb ok then Err "Invalid Ethereum address format"
    else Ok parsed.

(** Body of the [try] block after [JSON.parse]. *)
Definition parse_checks (parsed : json) : result json :=
  err <- get_prop parsed "error" ;;
  if truthy err then
    (* console.log('\n... ' + parsed.error): string concatenation *)
    match option_map js_to_string err with
    | Some None => Err "TypeError: Cannot convert object to primitive value"
    | _ => Err UNDERSTANDING_FAILURE
    end
  else validate_fields parsed.

(** The [catch] block: the understanding failure is rethrown, every other
    error becomes the generic parse failure. *)
Definition catch_parse (inner : result json) : result json :=
  match inner with
  | Ok v => Ok v
  | Err m =>
      if String.eqb m UNDERSTANDING_FAILURE then Err m else Err MALFORMED_RESPONSE
  end.

Section Parser.

(** [JSON.parse]: [None] when it throws a [SyntaxError]. *)
Variable JSON_parse : string -> option json.

Definition clean_response (response : string) : string :=
  trim (strip_fences response).

Definition parseAIResponse (response : string) : result json :=
  catch_parse
    (match JSON_parse (clean_response response) with
     | None => Err "SyntaxError: Unexpected token in JSON"
     | Some parsed => parse_checks parsed
     end).

End Parser.

(** ** A model of [JSON.parse], used to run the parser on concrete responses

    Covers the JSON grammar with integer numbers and with the one-letter
    escapes (quote, backslash, slash, b, f, n, r, t); numbers with a fraction
    or an exponent and unicode escapes are refused (treated as a
    [SyntaxError]). *)
Definition dq : ascii := ascii_of_nat 34.
Definition bslash : ascii := ascii_of_nat 92.

Definition is_json_ws (c : ascii) : bool :=
  let n := nat_of_ascii c in
  ((n =? 32) || (n =? 9) || (n =? 10) || (n =? 13))%nat.

Fixpoint skip_ws (s : string) : string :=
  match s with
  | String c r => if is_json_ws c then skip_ws r else s
  | EmptyString => EmptyString
  end.

Definition is_digit (c : ascii) : bool :=
  let n := nat_of_ascii c in ((48 <=? n) && (n <=? 57))%nat.

Fixpoint take_digits (s : string) : list nat * string :=
  match s with
  | String c r =>
      if is_digit c then
        let '(ds, rest) := take_digits r in ((nat_of_ascii c - 48)%nat :: ds, rest)
      else ([], s)
  | EmptyString => ([], EmptyString)
  end.

Definition digits_value (ds : list nat) : Z :=
  fold_left (fun acc d => acc * 10 + Z.of_nat d)%Z ds 0%Z.

Definition parse_number (s : string) : option (Z * string) :=
  let '(neg, s1) :=
    match s with String "-" r => (true, r) | _ => (false, s) end in
  match take_digits s1 with
  | ([], _) => None
  | (0%nat :: _ :: _, _) => None
  | (ds, rest) =>
      match rest with
      | String "." _ | String "e" _ | String "E" _ => None
      | _ => let v := digits_value ds in Some (if neg then Z.opp v else v, rest)
      end
  end.

(** The body of a string literal, after its opening quote. *)
Fixpoint parse_string_body (s : string) : option (string * string) :=
  match s with
  | EmptyString => None
  | String c r =>
      if Ascii.eqb c dq then Some (EmptyString, r)
      else if (nat_of_ascii c <? 32)%nat then None
      else if Ascii.eqb c bslash then
        match r with
        | String e r' =>
            let esc :=
              if Ascii.eqb e dq then Some dq
              else if Ascii.eqb e bslash then Some bslash
              else if Ascii.eqb e "/" then Some "/"%char
              else if Ascii.eqb e "b" then Some (ascii_of_nat 8)
              else if Ascii.eqb e "f" then Some (ascii_of_nat 12)
              else if Ascii.eqb e "n" then Some (ascii_of_nat 10)
              else if Ascii.eqb e "r" then Some (ascii_of_nat 13)
              else if Ascii.eqb e "t" then Some (ascii_of_nat 9)
              else None in
            match esc with
            | Some c' =>
                match parse_string_body r' with
                | Some (b, rest) => Some (String c' b, rest)
                | None => None
                end
            | None => None
            end
        | EmptyString => None
        end
      else
        match parse_string_body r with
        | Some (b, rest) => Some (String c b, rest)
        | None => None
        end
  end.

Fixpoint parse_value (fuel : nat) (s : string) : option (json * string) :=
  match fuel with
  | O => None
  | S f =>
      let s := skip_ws s in
      if prefix "null" s then Some (JNull, str_drop 4 s)
      else if prefix "true" s then Some (JBool true, str_drop 4 s)
      else if prefix "false" s then Some (JBool false, str_drop 5 s)
      else
      match s with
      | String c r =>
          if Ascii.eqb c dq then
            option_map (fun p => (JStr (fst p), snd p)) (parse_string_body r)
          else if Ascii.eqb c "[" then
            match skip_ws r with
            | String "]" r' => Some (JArr [], r')
            | _ => parse_elems f r []
            end
          else if Ascii.eqb c "{" then
            match skip_ws r with
            | String "}" r' => Some (JObj [], r')
            | _ => parse_members f r []
            end
          else option_map (fun p => (JNum (fst p), snd p)) (parse_number s)
      | EmptyString => None
      end
  end
with parse_elems (fuel : nat) (s : string) (acc : list json) : option (json * string) :=
  match fuel with
  | O => None
  | S f =>
      match parse_value f s with
      | Some (v, r) =>
          match skip_ws r with
          | String "," r' => parse_elems f r' (acc ++ [v])
          | String "]" r' => Some (JArr (acc ++ [v]), r')
          | _ => None
          end
      | None => None
      end
  end
with parse_members (fuel : nat) (s : string) (acc : list (string * json))
  : option (json * string) :=
  match fuel with
  | O => None
  | S f =>
      match skip_ws s with
      | String c r =>
          if Ascii.eqb c dq then
            match parse_string_body r with
            | Some (k, r1) =>
                match skip_ws r1 with
                | String ":" r2 =>
                    match parse_value f r2 with
                    | Some (v, r3) =>
                        match skip_ws r3 with
                        | String "," r4 => parse_members f r4 (acc ++ [(k, v)])
                        | String "}" r4 => Some (JObj (acc ++ [(k, v)]), r4)
                        | _ => None
                        end
                    | None => None
                    end
                | _ => None
                end
            | None => None
            end
          else None
      | EmptyString => None
      end
  end.

Definition json_parse (s : string) : option json :=
  match parse_value (S (String.length s)) s with
  | Some (v, rest) => if String.eqb (skip_ws rest) EmptyString then Some v else None
  | None => None
  end.

(** Building JSON texts: [jq s] is the string literal of [s] (no escapes). *)
Definition jq (s : string) : string := String dq (s ++ String dq EmptyString).

(** ** [parseAIResponse] of index.ts (the single-network faucet)

    [JSON.parse] of the raw response, a [typeof] check of the three fields,
    and, when anything in that block throws, a second chance with three
    regular expressions searched anywhere in the response. *)

Fixpoint take_while (p : ascii -> bool) (s : string) : string :=
  match s with
  | String c r => if p c then String c (take_while p r) else EmptyString
  | EmptyString => EmptyString
  end.

(** Leftmost match of [lit] followed by [after]: [after] gets the input
    after the literal and returns the capture group. *)
Fixpoint re_search (lit : string) (after : string -> option string) (s : string)
  : option string :=
  match (if prefix lit s then after (str_drop (String.length lit) s) else None) with
  | Some cap => Some cap
  | None =>
      match s with
      | String _ r => re_search lit after r
      | EmptyString => None
      end
  end.

(** [\s*([cls]+)]: [\s*] is greedy and no white space is in [cls], so the
    group is the maximal run of [cls] after the white space. *)
Definition class_capture (cls : ascii -> bool) (s : string) : option string :=
  let cap := take_while cls (trim_start s) in
  if String.eqb cap EmptyString then None else Some cap.

Definition is_line_terminator (c : ascii) : bool :=
  (nat_of_ascii c =? 10)%nat || (nat_of_ascii c =? 13)%nat.

Fixpoint last_non_terminator (s : string) : option ascii :=
  match s with
  | EmptyString => None
  | String c r =>
      match last_non_terminator r with
      | Some c' => Some c'
      | None => if is_line_terminator c then None else Some c
      end
  end.

(** [\s*(.+)]: when something follows the white space the group runs to the
    end of its line; when only white space is left, [\s*] backtracks to the
    last character that [.] accepts. *)
Definition line_capture (s : string) : option string :=
  match trim_start s with
  | EmptyString =>
      match last_non_terminator s with
      | Some c => Some (String c EmptyString)
      | None => None
      end
  | r => Some (take_while (fun c => negb (is_line_terminator c)) r)
  end.

Definition to_class (c : ascii) : bool := is_hex c || Ascii.eqb c "x".
Definition amount_class (c : ascii) : bool := is_digit c || Ascii.eqb c ".".

Definition match_to (s : string) : option string := re_search "to:" (class_capture to_class) s.
Definition match_amount (s : string) : option string :=
  re_search "amount:" (class_capture amount_class) s.
Definition match_explanation (s : string) : option string :=
  re_search "explanation:" line_capture s.

(** [amount.replace(/\s*ETH\s*$/i, '')]: cut at the leftmost position from
    which the rest is white space, [ETH] in any case, and white space. *)
Definition eth_suffix (s : string) : bool :=
  let r := trim_start s in
  prefix "eth" (toLowerCase (substring 0 3 r)) &&
  String.eqb (trim_start (str_drop 3 r)) EmptyString.

Fixpoint strip_eth (s : string) : string :=
  if eth_suffix s then EmptyString
  else match s with
       | String c r => String c (strip_eth r)
       | EmptyString => EmptyString
       end.

Record TxDetails := { td_to : string; td_amount : string; td_explanation : string }.

Definition json_string_field (parsed : json) (k : string) : result string :=
  v <- get_prop parsed k ;;
  match v with
  | Some (JStr s) => Ok s
  | _ => Err "Invalid response structure"
  end.

Section ParserV1.

Variable JSON_parse : string -> option json.

Definition parse_primary_v1 (response : string) : result TxDetails :=
  match JSON_parse response with
  | None => Err "SyntaxError: Unexpected token in JSON"
  | Some parsed =>
      to <- json_string_field parsed "to" ;;
      amount <- json_string_field parsed "amount" ;;
      expl <- json_string_field parsed "explanation" ;;
      Ok {| td_to := to; td_amount := strip_eth amount; td_explanation := expl |}
  end.

Definition parse_fallback_v1 (response : string) : result TxDetails :=
  match match_to response, match_amount response, match_explanation response with
  | Some to, Some amount, Some expl =>
      Ok {| td_to := to; td_amount := amount; td_explanation := trim expl |}
  | _, _, _ => Err "Failed to parse AI response"
  end.

Definition parseAIResponse_v1 (response : string) : result TxDetails :=
  match parse_primary_v1 response with
  | Ok d => Ok d
  | Err _ => parse_fallback_v1 response
  end.

End ParserV1.

(** ** The network registry ([networks] module, src/guide.txt) *)

Record Chain := { chain_id : Z; chain_name : string; native_symbol : string }.

Record FaucetConfig := { faucet_symbol : string; faucet_amount : string }.

(** A registered network.  The [publicClient] and the [walletClient]
    factory are bound to [chain] and to nothing else; the state they talk to
    is modelled per network in [Dispatch] below. *)
Record NetworkConfig := { chain : Chain; faucet : FaucetConfig }.

Definition createNetworkConfig (c : Chain) (faucetConfig : FaucetConfig) : NetworkConfig :=
  {| chain := c; faucet := faucetConfig |}.

(** The chain definitions imported from viem/chains, and the custom one. *)
Definition sepolia : Chain :=
  {| chain_id := 11155111; chain_name := "Sepolia"; native_symbol := "ETH" |}.
Definition abstractTestnet : Chain :=
  {| chain_id := 11124; chain_name := "Abstract Testnet"; native_symbol := "ETH" |}.
Definition optimismSepolia : Chain :=
  {| chain_id := 11155420; chain_name := "OP Sepolia"; native_symbol := "ETH" |}.
Definition polygon : Chain :=
  {| chain_id := 137; chain_name := "Polygon"; native_symbol := "POL" |}.
Definition shardeumAtomium : Chain :=
  {| chain_id := 8082; chain_name := "Shardeum Atomium"; native_symbol := "SHM" |}.

(** The object literal [networks], its own properties in insertion order. *)
Definition networks : list (string * NetworkConfig) :=
  [ ("sepolia", createNetworkConfig sepolia {| faucet_symbol := "ETH"; faucet_amount := "0.01" |});
    ("abstract", createNetworkConfig abstractTestnet {| faucet_symbol := "ETH"; faucet_amount := "0.01" |});
    ("optimism-sepolia", createNetworkConfig optimismSepolia {| faucet_symbol := "ETH"; faucet_amount := "0.01" |});
    ("polygon", createNetworkConfig polygon {| faucet_symbol := "POL"; faucet_amount := "0.1" |});
    ("shardeum-atomium", createNetworkConfig shardeumAtomium {| faucet_symbol := "SHM"; faucet_amount := "100" |}) ].

(** [Object.keys(networks)]: no key is an array index, so insertion order. *)
Definition getAvailableNetworks : list string := map fst networks.

Fixpoint own_lookup (kvs : list (string * NetworkConfig)) (k : string) : option NetworkConfig :=
  match kvs with
  | [] => None
  | (k', v) :: r => if String.eqb k' k then Some v else own_lookup r k
  end.

(** Properties every plain object inherits from [Object.prototype]. *)
Definition object_prototype_props : list string :=
  [ "constructor"; "__defineGetter__"; "__defineSetter__"; "hasOwnProperty";
    "__lookupGetter__"; "__lookupSetter__"; "isPrototypeOf";
    "propertyIsEnumerable"; "toString"; "valueOf"; "__proto__"; "toLocaleString" ].

(** The value of a property read [networks[name]]. *)
Inductive js_prop :=
| PNetwork (c : NetworkConfig)      (* an own property: a registered network *)
| PInherited (name : string)        (* a member of Object.prototype: a function or the prototype *)
| PUndefined.

(** [getNetwork(name)] is [networks[name]]: own properties first, then the
    prototype chain. *)
Definition getNetwork (name : string) : js_prop :=
  match own_lookup networks name with
  | Some c => PNetwork c
  | None =>
      if existsb (String.eqb name) object_prototype_props then PInherited name
      else PUndefined
  end.

(** ** [getNetworksFromInput] (part_000) *)
Definition getNetworksFromInput (input : string) : list string :=
  let inputLower := toLowerCase input in
  let availableNetworks := getAvailableNetworks in
  if includes inputLower "both" || includes inputLower "all" then availableNetworks
  else filter (fun network => includes inputLower (toLowerCase network)) availableNetworks.

(** ** Dispatch: [makeTransaction], [getTransactionStatus],
    [makeMultipleTransactions] (part_000) *)

Record NetworkRequest := { req_name : string; req_amount : string; req_symbol : string }.

Inductive outcome :=
| Sent (hash : string) (status : string)     (* result: { hash, status } *)
| Failed (error : string).                   (* result: { error } *)

Record DispatchResult := { dr_network : string; dr_result : outcome }.

(** The RPC calls made, in order. *)
Inductive event :=
| EvGetBalance (net : string)
| EvSendTransaction (net : string) (to : string) (value : Z)
| EvGetReceipt (net : string) (hash : string).

Section Dispatch.

(** The state of one network as seen through its RPC endpoint (balances,
    pending and mined transactions); each registered network has its own
    clients and endpoint, so the program's world is one such state per
    network name. *)
Variable ChainState : Type.

(** The chain client calls (viem), each of which may fail with a transport
    error and may change the network's state. *)
Variable rpc_getBalance : ChainState -> result Z * ChainState.
Variable rpc_sendTransaction : ChainState -> string -> Z -> result string * ChainState.
(** [Ok true] is a receipt with [status === 'success'], [Ok false] any other
    receipt; [Err m] a thrown error with message [m]. *)
Variable rpc_getTransactionReceipt : ChainState -> string -> result bool * ChainState.
(** viem's [parseEther] (throws on a malformed decimal) and [formatEther]. *)
Variable parseEther : string -> result Z.
Variable formatEther : Z -> string.

Record St := { world : string -> ChainState; trace : list event }.

Definition M (A : Type) : Type := St -> A * St.

Definition ret {A} (a : A) : M A := fun s => (a, s).

Definition mbind {A B} (m : M A) (k : A -> M B) : M B :=
  fun s => let '(a, s1) := m s in k a s1.

Notation "x <-- m ;;; k" := (mbind m (fun x => k))
  (at level 61, m at next level, right associativity).

Definition upd (w : string -> ChainState) (n : string) (c : ChainState) : string -> ChainState :=
  fun k => if String.eqb k n then c else w k.

(** One call on the client of network [net]. *)
Definition rpc {A} (net : string) (ev : event) (f : ChainState -> A * ChainState) : M A :=
  fun s =>
    let '(a, c) := f (world s net) in
    (a, {| world := upd (world s) net c; trace := trace s ++ [ev] |}).

Definition makeTransaction (to amount networkName : string) : M (result string) :=
  match getNetwork networkName with
  | PUndefined => ret (Err ("Network " ++ networkName ++ " not configured"))
  | PInherited _ =>
      (* network.walletClient(account) on a prototype member *)
      ret (Err "network.walletClient is not a function")
  | PNetwork network =>
      b <-- rpc networkName (EvGetBalance networkName) rpc_getBalance ;;;
      match b with
      | Err e => ret (Err e)
      | Ok balance =>
          match parseEther amount with
          | Err e => ret (Err e)
          | Ok value =>
              if (balance <? value)%Z then
                ret (Err ("Faucet is currently drained for " ++ networkName ++
                          ". We will refill it soon. " ++
                          "Current balance: " ++ formatEther balance ++ " " ++
                          faucet_symbol (faucet network)))
              else
                rpc networkName (EvSendTransaction networkName to value)
                  (fun c => rpc_sendTransaction c to value)
          end
      end
  end.

Definition getTransactionStatus (hash networkName : string) : M (result string) :=
  match getNetwork networkName with
  | PUndefined => ret (Err ("Network " ++ networkName ++ " not configured"))
  | PInherited _ =>
      (* network.publicClient is undefined: the TypeError is caught *)
      ret (Ok "Unknown")
  | PNetwork _ =>
      r <-- rpc networkName (EvGetReceipt networkName hash)
              (fun c => rpc_getTransactionReceipt c hash) ;;;
      ret (Ok (match r with
               | Ok true => "Success"
               | Ok false => "Failed"
               | Err m => if includes m "could not be found" then "Pending" else "Unknown"
               end))
  end.

(** The body of the [for] loop for one request. *)
Definition dispatchOne (to : string) (req : NetworkRequest) : M DispatchResult :=
  let name := req_name req in
  h <-- makeTransaction to (req_amount req) name ;;;
  match h with
  | Err e => ret {| dr_network := name; dr_result := Failed e |}
  | Ok hash =>
      st <-- getTransactionStatus hash name ;;;
      match st with
      | Ok status => ret {| dr_network := name; dr_result := Sent hash status |}
      | Err e => ret {| dr_network := name; dr_result := Failed e |}
      end
  end.

Fixpoint makeMultipleTransactions (to : string) (networkConfigs : list NetworkRequest)
  : M (list DispatchResult) :=
  match networkConfigs with
  | [] => ret []
  | req :: rest =>
      r <-- dispatchOne to req ;;;
      rs <-- makeMultipleTransactions to rest ;;;
      ret (r :: rs)
  end.

End Dispatch.

Arguments world {ChainState} _ _.
Arguments trace {ChainState} _.
Arguments Build_St {ChainState} _ _.
Arguments upd {ChainState} _ _ _ _.
Arguments ret {ChainState A} _ _.
Arguments mbind {ChainState A B} _ _ _.
Arguments rpc {ChainState A} _ _ _ _.
Arguments makeTransaction {ChainState} _ _ _ _ _ _ _ _.
Arguments getTransactionStatus {ChainState} _ _ _ _.
Arguments dispatchOne {ChainState} _ _ _ _ _ _ _ _.
Arguments makeMultipleTransactions {ChainState} _ _ _ _ _ _ _ _.

(** ** [makeTransaction] and the status polling of index.ts *)

Section DispatchV1.

Variable ChainState : Type.
Variable rpc_getBalance : ChainState -> result Z * ChainState.
Variable rpc_sendTransaction : ChainState -> string -> Z -> result string * ChainState.
Variable parseEther : string -> result Z.
Variable formatEther : Z -> string.

(** The single (Sepolia) client of index.ts. *)
Definition makeTransaction_v1 (to amount : string) (c : ChainState) : result string * ChainState :=
  let '(b, c1) := rpc_getBalance c in
  match b with
  | Err e => (Err e, c1)
  | Ok balance =>
      match parseEther amount with
      | Err e => (Err e, c1)
      | Ok value =>
          if (balance <? value)%Z then
            (Err ("Insufficient funds. Balance: " ++ formatEther balance ++
                  " ETH, Trying to send: " ++ amount ++ " ETH"), c1)
          else rpc_sendTransaction c1 to value
      end
  end.

End DispatchV1.

(** [getTransactionStatus] of index.ts, on its single (Sepolia) client. *)
Section StatusV1.

Variable ChainState : Type.
Variable rpc_getTransactionReceipt : ChainState -> string -> result bool * ChainState.

Definition getTransactionStatus_v1 (hash : string) (c : ChainState) : string * ChainState :=
  let '(r, c1) := rpc_getTransactionReceipt c hash in
  (match r with
   | Ok true => "Success"
   | Ok false => "Failed"
   | Err m => if includes m "could not be found" then "Pending" else "Unknown"
   end, c1).

End StatusV1.

Arguments getTransactionStatus_v1 {ChainState} _ _ _.

(** [setInterval(cb, 5000)] of index.ts [main]: the [k]-th callback
    ([k = 0, 1, ...]) fires [5000 * (k + 1)] ms after the interval is set,
    queries the status, logs it, and clears the interval unless the status is
    [Pending].  [obs k] is the status the [k]-th query returns; each query is
    taken to complete before the next tick.  [poll_updates obs k n] is the log
    of ([time], [status]) lines printed by the ticks [k], [k+1], ... within
    the next [n] ticks. *)
Fixpoint poll_updates (obs : nat -> string) (k n : nat) : list (Z * string) :=
  match n with
  | O => []
  | S n' =>
      let status := obs k in
      (5000 * Z.of_nat (S k), status)%Z ::
      (if String.eqb status "Pending" then poll_updates obs (S k) n' else [])
  end.

(** ** Concrete instances of the external collaborators

    Used to run the program on concrete inputs: viem's [formatEther] and
    [parseEther] on 18 decimals ([parseEther] refuses more than 18 fraction
    digits instead of rounding them), and a chain holding the faucet's
    balance whose receipts are not found yet. *)

Definition pow18 : Z := 10 ^ 18.

Fixpoint zeros (n : nat) : string :=
  match n with O => EmptyString | S n' => String "0" (zeros n') end.

Definition pad_left18 (s : string) : string := zeros (18 - String.length s) ++ s.

Fixpoint strip_trailing_zeros (s : string) : string :=
  match s with
  | EmptyString => EmptyString
  | String c r =>
      let r' := strip_trailing_zeros r in
      if Ascii.eqb c "0" && String.eqb r' EmptyString then EmptyString else String c r'
  end.

Definition formatEther_model (wei : Z) : string :=
  let a := Z.abs wei in
  let integer := Z_to_string (a / pow18) in
  let fraction := strip_trailing_zeros (pad_left18 (Z_to_string (a mod pow18))) in
  (if (wei <? 0)%Z then "-" else EmptyString) ++ integer ++
  (if String.eqb fraction EmptyString then EmptyString else "." ++ fraction).

Fixpoint digits_of (s : string) : option (list nat) :=
  match s with
  | EmptyString => Some []
  | String c r =>
      if is_digit c then option_map (cons (nat_of_ascii c - 48)%nat) (digits_of r) else None
  end.

Fixpoint split_dot (s : string) : string * option string :=
  match s with
  | EmptyString => (EmptyString, None)
  | String "." r => (EmptyString, Some r)
  | String c r => let '(a, b) := split_dot r in (String c a, b)
  end.

Definition parseEther_model (amount : string) : result Z :=
  let '(neg, body) := match amount with String "-" r => (true, r) | _ => (false, amount) end in
  let '(integer, fraction) := split_dot body in
  let fraction := strip_trailing_zeros (match fraction with Some f => f | None => EmptyString end) in
  match digits_of integer, digits_of fraction with
  | Some di, Some df =>
      if (18 <? List.length df)%nat then Err "InvalidDecimalNumberError"
      else
        let v := (digits_value di * pow18 +
                  digits_value df * 10 ^ Z.of_nat (18 - List.length df))%Z in
        Ok (if neg then Z.opp v else v)
  | _, _ => Err ("Number " ++ amount ++ " is not a valid decimal number.")
  end.

Record DemoChain := { dc_balance : Z; dc_nonce : nat }.

Definition demo_getBalance (c : DemoChain) : result Z * DemoChain := (Ok (dc_balance c), c).

Definition demo_sendTransaction (c : DemoChain) (to : string) (value : Z)
  : result string * DemoChain :=
  (Ok ("0x" ++ Z_to_string (Z.of_nat (dc_nonce c))),
   {| dc_balance := dc_balance c - value; dc_nonce := S (dc_nonce c) |}).

(** A receipt that is not mined yet: viem's [TransactionReceiptNotFoundError]. *)
Definition demo_getTransactionReceipt (c : DemoChain) (hash : string) : result bool * DemoChain :=
  (Err ("Transaction receipt with hash " ++ hash ++
        " could not be found. The Transaction may not be processed on a block yet."), c).

Definition demo_world (balance : Z) : string -> DemoChain :=
  fun _ => {| dc_balance := balance; dc_nonce := 0 |}.

Definition demo_recipient : string := "0x2d6DA915F00dcA50b06a60fca010949382f4e0e8".

Definition demo_st (balance : Z) : St DemoChain := {| world := demo_world balance; trace := [] |}.

Definition sepolia_config : NetworkConfig :=
  createNetworkConfig sepolia {| faucet_symbol := "ETH"; faucet_amount := "0.01" |}.

(** Helpers for stating properties of the parser. *)

(** Does [parsed.to] pass the address regex (after [ToString])? *)
Definition recipient_ok (parsed : json) : bool :=
  match get_prop parsed "to" with
  | Ok (Some v) => match js_to_string v with Some s => address_re s | None => false end
  | _ => false
  end.

(** Is [parsed.error] truthy? ([false] when [parsed] is [null].) *)
Definition error_truthy (parsed : json) : bool :=
  match get_prop parsed "error" with Ok e => truthy e | Err _ => false end.

(** The object without its members named [k]. *)
Definition obj_remove (kvs : list (string * json)) (k : string) : list (string * json) :=
  filter (fun kv => negb (String.eqb (fst kv) k)) kvs.

(** Concrete model responses. *)
Definition json_member (k v : string) : string := jq k ++ ":" ++ v.

Definition demo_networks_json : string :=
  "[{" ++ json_member "name" (jq "sepolia") ++ "," ++ json_member "amount" (jq "0.01") ++ "," ++
  json_member "symbol" (jq "ETH") ++ "}]".

Definition demo_networks_value : json :=
  JArr [JObj [("name", JStr "sepolia"); ("amount", JStr "0.01"); ("symbol", JStr "ETH")]].

Definition bad_recipient_members : list (string * json) :=
  [("to", JStr "0xZZZZZZZZZZZZZZZZZZZZZZZZZZZZZZZZZZZZZZZZ"); ("networks", demo_networks_value);
   ("explanation", JStr "Sending")].

Definition empty_explanation_members : list (string * json) :=
  [("to", JStr demo_recipient); ("networks", demo_networks_value); ("explanation", JStr EmptyString)].

(** An otherwise well-formed intent whose [error] member is the empty string. *)
Definition resp_empty_error : string :=
  "{" ++ json_member "error" (jq EmptyString) ++ "," ++ json_member "to" (jq demo_recipient) ++ "," ++
  json_member "networks" demo_networks_json ++ "," ++ json_member "explanation" (jq "Sending") ++ "}".

Definition resp_error : string := "{" ++ json_member "error" (jq "unclear request") ++ "}".

(** A well-formed intent except for an empty [explanation]. *)
Definition resp_empty_explanation : string :=
  "{" ++ json_member "to" (jq demo_recipient) ++ "," ++ json_member "networks" demo_networks_json ++ "," ++
  json_member "explanation" (jq EmptyString) ++ "}".

(** A well-formed intent whose recipient is not hexadecimal. *)
Definition resp_bad_recipient : string :=
  "{" ++ json_member "to" (jq "0xZZZZZZZZZZZZZZZZZZZZZZZZZZZZZZZZZZZZZZZZ") ++ "," ++
  json_member "networks" demo_networks_json ++ "," ++ json_member "explanation" (jq "Sending") ++ "}".

(** A response in the line format of the regex fallback. *)
Definition resp_lines : string :=
  "to: " ++ demo_recipient ++ String nl ("amount: 0.01" ++ String nl "explanation: send it").

(** A well-formed intent whose recipient is an array holding the address. *)
Definition resp_array_recipient : string :=
  "{" ++ json_member "to" ("[" ++ jq demo_recipient ++ "]") ++ "," ++
  json_member "networks" demo_networks_json ++ "," ++ json_member "explanation" (jq "Sending") ++ "}".

Definition array_recipient_members : list (string * json) :=
  [("to", JArr [JStr demo_recipient]); ("networks", demo_networks_value); ("explanation", JStr "Sending")].

(** A decoded single-network intent whose amount carries the unit. *)
Definition resp_amount_eth : string :=
  "{" ++ json_member "to" (jq demo_recipient) ++ "," ++ json_member "amount" (jq "0.5 ETH") ++ "," ++
  json_member "explanation" (jq "Sending") ++ "}".

Definition amount_eth_members : list (string * json) :=
  [("to", JStr demo_recipient); ("amount", JStr "0.5 ETH"); ("explanation", JStr "Sending")].

(** Strings without a backtick, and strings without a line terminator. *)
Definition no_backtick (s : string) : Prop := forall c, In c (list_ascii_of_string s) -> c <> "`"%char.

Definition single_line (s : string) : bool :=
  forallb (fun c => negb (is_line_terminator c)) (list_ascii_of_string s).

(** Counting in traces and results. *)
Definition is_receipt_query (ev : event) : bool :=
  match ev with EvGetReceipt _ _ => true | _ => false end.

Definition is_sent (d : DispatchResult) : bool :=
  match dr_result d with Sent _ _ => true | Failed _ => false end.

Definition receipt_queries (evs : list event) : nat := List.length (filter is_receipt_query evs).

Definition sent_count (ds : list DispatchResult) : nat := List.length (filter is_sent ds).

(** The four statuses [getTransactionStatus] reports. *)
Definition tx_statuses : list string := ["Success"; "Failed"; "Pending"; "Unknown"].

(** A request for the faucet amount on Sepolia. *)
Definition sepolia_request : NetworkRequest :=
  {| req_name := "sepolia"; req_amount := "0.01"; req_symbol := "ETH" |}.

(** Sends in a list of RPC calls. *)
Definition is_send_event (ev : event) : bool :=
  match ev with EvSendTransaction _ _ _ => true | _ => false end.

Definition send_events (evs : list event) : nat := List.length (filter is_send_event evs).

(** Is [parsed[k]] truthy? ([false] when [parsed] is [null].) *)
Definition field_truthy (parsed : json) (k : string) : bool :=
  match get_prop parsed k with Ok e => truthy e | Err _ => false end.

(** * Properties *)

(** ** String lemmas *)

Lemma prefix_app_iff (needle hay : string) :
  prefix needle hay = true <-> exists post, hay = needle ++ post.
Proof.
  revert hay; induction needle as [|a needle IH]; intros hay; simpl.
  - split; [intros _; exists hay; reflexivity | now destruct hay].
  - destruct hay as [|b hay].
    + split; [discriminate | intros [post H]; discriminate].
    + cbn. destruct (ascii_dec a b) as [->|Hne].
      * rewrite IH. split; intros [post H]; exists post; [now rewrite H | now inversion H].
      * split; [discriminate | intros [post H]; inversion H; congruence].
Qed.

Lemma includes_cons (c : ascii) (hay needle : string) :
  includes (String c hay) needle = prefix needle (String c hay) || includes hay needle.
Proof. reflexivity. Qed.

Lemma includes_iff (hay needle : string) :
  includes hay needle = true <-> exists pre post, hay = pre ++ needle ++ post.
Proof.
  induction hay as [|c hay IH].
  - simpl. destruct needle as [|a n]; simpl.
    + split; [intros _; exists EmptyString, EmptyString; reflexivity | reflexivity].
    + split; [discriminate | intros [pre [post H]]; destruct pre; discriminate].
  - rewrite includes_cons, orb_true_iff, prefix_app_iff, IH. split.
    + intros [[post H] | [pre [post H]]].
      * exists EmptyString, post. exact H.
      * exists (String c pre), post. simpl. now rewrite H.
    + intros [pre [post H]]. destruct pre as [|c' pre].
      * left. exists post. exact H.
      * right. inversion H; subst. exists pre, post. reflexivity.
Qed.

(** ** C2: the network selector *)

(** C2: [getNetworksFromInput] returns every registered name, in
    [Object.keys] order, when the lower-cased input contains [all] or
    [both]; otherwise exactly the registered names whose lower-cased form
    occurs in the lower-cased input, in [Object.keys] order.  [includes]
    is substring occurrence. *)
Theorem getNetworksFromInput_spec (input : string) :
  getNetworksFromInput input =
    (if includes (toLowerCase input) "all" || includes (toLowerCase input) "both"
     then getAvailableNetworks
     else filter (fun n => includes (toLowerCase input) (toLowerCase n)) getAvailableNetworks)
  /\ (forall hay needle, includes hay needle = true <-> exists pre post, hay = pre ++ needle ++ post).
Proof.
  split; [| exact includes_iff].
  unfold getNetworksFromInput.
  now rewrite orb_comm.
Qed.

(** ** C3: the insufficient-funds error *)

Section InsufficientFunds.

Variable ChainState : Type.
Variable rpc_getBalance : ChainState -> result Z * ChainState.
Variable rpc_sendTransaction : ChainState -> string -> Z -> result string * ChainState.
Variable rpc_getTransactionReceipt : ChainState -> string -> result bool * ChainState.
Variable parseEther : string -> result Z.
Variable formatEther : Z -> string.

(** C3 (amended): when the balance read on the target network is strictly
    below the requested value in wei, [makeTransaction] of part_000 fails
    after the balance query alone (nothing is sent) with a message that gives
    the network, the current balance in ether and the faucet symbol, but not
    the requested amount; the index.ts [makeTransaction] fails on the same
    input with a message giving both the balance and the requested amount. *)
Theorem insufficient_funds_message
  (to amount name : string) (s : St ChainState) (network : NetworkConfig)
  (balance value : Z) (c1 : ChainState)
  (Hnet : getNetwork name = PNetwork network)
  (Hbal : rpc_getBalance (world s name) = (Ok balance, c1))
  (Hval : parseEther amount = Ok value)
  (Hlt : (balance < value)%Z) :
  makeTransaction rpc_getBalance rpc_sendTransaction parseEther formatEther to amount name s =
    (Err ("Faucet is currently drained for " ++ name ++ ". We will refill it soon. " ++
          "Current balance: " ++ formatEther balance ++ " " ++ faucet_symbol (faucet network)),
     {| world := upd (world s) name c1; trace := trace s ++ [EvGetBalance name] |})
  /\ makeTransaction_v1 ChainState rpc_getBalance rpc_sendTransaction parseEther formatEther
       to amount (world s name) =
     (Err ("Insufficient funds. Balance: " ++ formatEther balance ++
           " ETH, Trying to send: " ++ amount ++ " ETH"), c1).
Proof.
  apply Z.ltb_lt in Hlt.
  split.
  - unfold makeTransaction. rewrite Hnet.
    unfold mbind, rpc. rewrite Hbal. cbn. rewrite Hval, Hlt. reflexivity.
  - unfold makeTransaction_v1. rewrite Hbal, Hval, Hlt. reflexivity.
Qed.

End InsufficientFunds.

(** C3 (counterexample): with a zero balance on sepolia and a requested
    amount of 0.01 ether, the part_000 error message does not contain the
    requested amount. *)
Lemma drained_message_omits_amount :
  fst (makeTransaction demo_getBalance demo_sendTransaction parseEther_model formatEther_model
         demo_recipient "0.01" "sepolia" (demo_st 0)) =
    Err "Faucet is currently drained for sepolia. We will refill it soon. Current balance: 0 ETH"
  /\ parseEther_model "0.01" = Ok 10000000000000000%Z
  /\ includes "Faucet is currently drained for sepolia. We will refill it soon. Current balance: 0 ETH"
       "0.01" = false.
Proof. vm_compute. repeat split. Qed.

Lemma insufficient_funds_message_witness :
  getNetwork "sepolia" = PNetwork sepolia_config
  /\ demo_getBalance (world (demo_st 0) "sepolia") = (Ok 0%Z, world (demo_st 0) "sepolia")
  /\ parseEther_model "0.01" = Ok 10000000000000000%Z
  /\ (0 < 10000000000000000)%Z
  /\ (makeTransaction demo_getBalance demo_sendTransaction parseEther_model formatEther_model
        demo_recipient "0.01" "sepolia" (demo_st 0) =
      (Err ("Faucet is currently drained for " ++ "sepolia" ++ ". We will refill it soon. " ++
            "Current balance: " ++ formatEther_model 0 ++ " " ++ faucet_symbol (faucet sepolia_config)),
       {| world := upd (world (demo_st 0)) "sepolia" (world (demo_st 0) "sepolia");
          trace := trace (demo_st 0) ++ [EvGetBalance "sepolia"] |})
      /\ makeTransaction_v1 DemoChain demo_getBalance demo_sendTransaction parseEther_model
           formatEther_model demo_recipient "0.01" (world (demo_st 0) "sepolia") =
         (Err ("Insufficient funds. Balance: " ++ formatEther_model 0 ++
               " ETH, Trying to send: " ++ "0.01" ++ " ETH"), world (demo_st 0) "sepolia")).
Proof.
  split; [reflexivity |]. split; [reflexivity |]. split; [reflexivity |]. split; [lia |].
  apply (insufficient_funds_message DemoChain demo_getBalance demo_sendTransaction
           parseEther_model formatEther_model demo_recipient "0.01" "sepolia" (demo_st 0)
           sepolia_config 0 10000000000000000 (world (demo_st 0) "sepolia"));
    [reflexivity | reflexivity | reflexivity | lia].
Defined.

(** ** C7: registry lookup *)

(** C7 (code defect): every registered name looks up its own configuration,
    whose chain is the registered chain and whose faucet symbol is not empty;
    but [getNetwork] reads [networks[name]] through the prototype chain, so
    the unregistered name [toString] yields [Object.prototype.toString]
    instead of [undefined]. *)
Theorem getNetwork_registered_and_toString :
  (forall n ch fc, In (n, createNetworkConfig ch fc) networks ->
     exists c, getNetwork n = PNetwork c /\ (chain_id (chain c) = chain_id ch)%Z /\
     faucet_symbol (faucet c) <> EmptyString)
  /\ ~ In "toString" getAvailableNetworks
  /\ getNetwork "toString" = PInherited "toString".
Proof.
  split; [| split; [simpl; intuition discriminate | reflexivity]].
  intros n ch fc Hin.
  simpl in Hin.
  repeat destruct Hin as [Hin | Hin]; try contradiction;
    inversion Hin; subst; eexists; (split; [reflexivity | split; [reflexivity | discriminate]]).
Qed.

(** ** The parser of part_000: C4, C5, C10 *)

Lemma obj_get_remove (kvs : list (string * json)) (f k : string) :
  obj_get (obj_remove kvs f) k = if String.eqb k f then None else obj_get kvs k.
Proof.
  unfold obj_get, obj_remove.
  assert (G : forall acc,
    fold_left (fun acc kv => if String.eqb (fst kv) k then Some (snd kv) else acc)
      (filter (fun kv => negb (String.eqb (fst kv) f)) kvs) acc =
    if String.eqb k f then acc
    else fold_left (fun acc kv => if String.eqb (fst kv) k then Some (snd kv) else acc) kvs acc).
  { induction kvs as [|[k' v] kvs IH]; intros acc; simpl.
    - destruct (String.eqb k f); reflexivity.
    - destruct (String.eqb k' f) eqn:E1; simpl.
      + rewrite IH. apply String.eqb_eq in E1; subst k'.
        destruct (String.eqb k f) eqn:E2; [reflexivity |].
        rewrite String.eqb_sym, E2. reflexivity.
      + rewrite IH. destruct (String.eqb k f) eqn:E2; [| reflexivity].
        apply String.eqb_eq in E2; subst k. rewrite E1. reflexivity. }
  rewrite G. destruct (String.eqb k f); reflexivity.
Qed.

Lemma catch_parse_not_understanding (m : string) :
  m <> UNDERSTANDING_FAILURE -> catch_parse (Err m) = Err MALFORMED_RESPONSE.
Proof.
  intros H. unfold catch_parse.
  destruct (String.eqb m UNDERSTANDING_FAILURE) eqn:E; [| reflexivity].
  apply String.eqb_eq in E. contradiction.
Qed.

Ltac not_understanding := apply catch_parse_not_understanding; discriminate.

Section ParserFacts.

Variable JSON_parse : string -> option json.

Lemma parseAIResponse_decoded (r : string) (p : json) :
  JSON_parse (clean_response r) = Some p ->
  parseAIResponse JSON_parse r = catch_parse (parse_checks p).
Proof. intros H. unfold parseAIResponse. now rewrite H. Qed.

Lemma validate_fields_ok (p v : json) :
  validate_fields p = Ok v -> v = p /\ recipient_ok p = true.
Proof.
  unfold validate_fields, recipient_ok.
  destruct p; simpl; try discriminate.
  destruct (truthy (obj_get kvs "to")) eqn:T; simpl; [| discriminate].
  destruct (truthy (obj_get kvs "networks")); simpl; [| discriminate].
  destruct (truthy (obj_get kvs "explanation")); simpl; [| discriminate].
  unfold regex_test_address.
  destruct (obj_get kvs "to") as [x|]; [| discriminate].
  destruct (js_to_string x) as [a|]; simpl; [| discriminate].
  destruct (address_re a); simpl; [| discriminate].
  intros E; inversion E; auto.
Qed.

Lemma parse_checks_ok (p v : json) :
  parse_checks p = Ok v -> v = p /\ recipient_ok p = true.
Proof.
  unfold parse_checks.
  destruct (get_prop p "error") as [e|m0]; simpl; [| discriminate].
  destruct (truthy e); [destruct (option_map js_to_string e) as [[?|]|]; discriminate |].
  apply validate_fields_ok.
Qed.

(** C4: a decoded response whose [to] field does not pass
    [/^0x[a-fA-F0-9]{40}$/i] (after [ToString]; missing counts as not
    passing) is rejected with the malformed-response error, whatever the
    other fields are, provided it carries no truthy [error] field (which is
    an understanding failure, C5); and every accepted response is returned
    exactly as decoded, with a recipient that passes the regex, so no
    address is truncated or padded. *)
Theorem parse_rejects_bad_recipient (r : string) (p : json)
  (Hdec : JSON_parse (clean_response r) = Some p)
  (Hbad : recipient_ok p = false)
  (Herr : error_truthy p = false) :
  parseAIResponse JSON_parse r = Err MALFORMED_RESPONSE
  /\ (forall r' v, parseAIResponse JSON_parse r' = Ok v ->
        JSON_parse (clean_response r') = Some v /\ recipient_ok v = true).
Proof.
  split.
  - rewrite (parseAIResponse_decoded r p Hdec).
    destruct (parse_checks p) eqn:E.
    + apply parse_checks_ok in E. destruct E as [_ E]. congruence.
    + unfold parse_checks in E. unfold error_truthy in Herr.
      destruct (get_prop p "error") as [e|m0] eqn:G; simpl in E.
      * rewrite Herr in E. unfold validate_fields in E.
        destruct p; simpl in E, G; try discriminate;
          try (inversion E; subst; not_understanding).
        destruct (truthy (obj_get kvs "to")) eqn:T1; simpl in E;
          [| inversion E; subst; not_understanding].
        destruct (truthy (obj_get kvs "networks")); simpl in E;
          [| inversion E; subst; not_understanding].
        destruct (truthy (obj_get kvs "explanation")); simpl in E;
          [| inversion E; subst; not_understanding].
        unfold regex_test_address in E. unfold recipient_ok in Hbad. simpl in Hbad.
        destruct (obj_get kvs "to") as [x|]; [| discriminate].
        destruct (js_to_string x) as [a|]; simpl in E;
          [| inversion E; subst; not_understanding].
        rewrite Hbad in E. simpl in E. inversion E; subst; not_understanding.
      * inversion E; subst. destruct p; simpl in G; try discriminate.
        inversion G; subst; not_understanding.
  - intros r' v H. unfold parseAIResponse in H.
    destruct (JSON_parse (clean_response r')) as [p'|]; simpl in H;
      [| discriminate].
    destruct (parse_checks p') eqn:E; simpl in H; [| destruct (String.eqb _ _); discriminate].
    inversion H; subst.
    apply parse_checks_ok in E. destruct E as [-> E]. auto.
Qed.

(** C5 (amended): for a response that decodes to an object, an [error]
    member that is truthy and converts to a string (a string, number, boolean,
    array of such, or an object without an own [toString] member) makes the
    parser fail with the understanding failure, without an Intent; a falsy
    [error] member ([null], [false], [0], the empty string) is not an
    understanding failure and the response goes on to the field validation
    like one without [error]. *)
Theorem parse_error_field (r : string) (kvs : list (string * json))
  (Hdec : JSON_parse (clean_response r) = Some (JObj kvs)) :
  (forall e msg, obj_get kvs "error" = Some e -> truthy (Some e) = true -> js_to_string e = Some msg ->
     parseAIResponse JSON_parse r = Err UNDERSTANDING_FAILURE)
  /\ (truthy (obj_get kvs "error") = false ->
     parseAIResponse JSON_parse r = catch_parse (validate_fields (JObj kvs))).
Proof.
  rewrite (parseAIResponse_decoded r _ Hdec).
  unfold parse_checks. cbn [get_prop bind].
  split.
  - intros e msg He T Hs. rewrite He, T. cbn [option_map]. rewrite Hs. reflexivity.
  - intros T. rewrite T. reflexivity.
Qed.

(** C10: the required-field check tests truthiness: when [to],
    [networks] or [explanation] is present but falsy (for instance the empty
    string) and there is no truthy [error] member, the response is rejected
    with the malformed-response error, exactly as the same object without
    that member is. *)
Theorem parse_falsy_required_field (r : string) (kvs : list (string * json)) (f : string)
  (Hdec : JSON_parse (clean_response r) = Some (JObj kvs))
  (Hf : In f ["to"; "networks"; "explanation"])
  (Hfalsy : truthy (obj_get kvs f) = false)
  (Herr : truthy (obj_get kvs "error") = false) :
  parseAIResponse JSON_parse r = Err MALFORMED_RESPONSE
  /\ catch_parse (parse_checks (JObj (obj_remove kvs f))) = Err MALFORMED_RESPONSE.
Proof.
  rewrite (parseAIResponse_decoded r _ Hdec).
  unfold parse_checks, validate_fields. simpl.
  rewrite !obj_get_remove.
  simpl in Hf.
  destruct Hf as [<- | [<- | [<- | []]]]; simpl; rewrite Herr, ?Hfalsy; simpl;
    destruct (truthy (obj_get kvs "to")), (truthy (obj_get kvs "networks")),
      (truthy (obj_get kvs "explanation")); simpl; try discriminate;
    split; first [reflexivity | not_understanding].
Qed.

End ParserFacts.

(** C5 (counterexample): an [error] member that is the empty string is not
    an understanding failure: the response is returned as the Intent. *)
Lemma error_member_not_always_understanding :
  json_parse (clean_response resp_empty_error) =
    Some (JObj [("error", JStr EmptyString); ("to", JStr demo_recipient);
                ("networks", demo_networks_value); ("explanation", JStr "Sending")])
  /\ parseAIResponse json_parse resp_empty_error =
    Ok (JObj [("error", JStr EmptyString); ("to", JStr demo_recipient);
              ("networks", demo_networks_value);
              ("explanation", JStr "Sending")]).
Proof. vm_compute. split; reflexivity. Qed.

Lemma parse_error_field_witness :
  json_parse (clean_response resp_error) = Some (JObj [("error", JStr "unclear request")])
  /\ parseAIResponse json_parse resp_error = Err UNDERSTANDING_FAILURE.
Proof.
  assert (Hdec : json_parse (clean_response resp_error) = Some (JObj [("error", JStr "unclear request")]))
    by (vm_compute; reflexivity).
  split; [exact Hdec |].
  apply (proj1 (parse_error_field json_parse resp_error _ Hdec) (JStr "unclear request") "unclear request");
    reflexivity.
Defined.

Lemma parse_rejects_bad_recipient_witness :
  json_parse (clean_response resp_bad_recipient) = Some (JObj bad_recipient_members)
  /\ recipient_ok (JObj bad_recipient_members) = false
  /\ error_truthy (JObj bad_recipient_members) = false
  /\ parseAIResponse json_parse resp_bad_recipient = Err MALFORMED_RESPONSE
  /\ (forall r' v, parseAIResponse json_parse r' = Ok v ->
        json_parse (clean_response r') = Some v /\ recipient_ok v = true).
Proof.
  split; [vm_compute; reflexivity |].
  split; [vm_compute; reflexivity |].
  split; [vm_compute; reflexivity |].
  apply (parse_rejects_bad_recipient json_parse resp_bad_recipient (JObj bad_recipient_members));
    vm_compute; reflexivity.
Defined.

Lemma parse_falsy_required_field_witness :
  json_parse (clean_response resp_empty_explanation) = Some (JObj empty_explanation_members)
  /\ In "explanation" ["to"; "networks"; "explanation"]
  /\ truthy (obj_get empty_explanation_members "explanation") = false
  /\ truthy (obj_get empty_explanation_members "error") = false
  /\ parseAIResponse json_parse resp_empty_explanation = Err MALFORMED_RESPONSE
  /\ catch_parse (parse_checks (JObj (obj_remove empty_explanation_members "explanation"))) =
       Err MALFORMED_RESPONSE.
Proof.
  split; [vm_compute; reflexivity |].
  split; [simpl; auto |].
  split; [vm_compute; reflexivity |].
  split; [vm_compute; reflexivity |].
  apply (parse_falsy_required_field json_parse resp_empty_explanation empty_explanation_members
           "explanation");
    [vm_compute; reflexivity | simpl; auto | vm_compute; reflexivity | vm_compute; reflexivity].
Defined.

(** ** C9: code fences around the JSON payload *)

Lemma str_drop_length (n : nat) (s : string) :
  String.length (str_drop n s) = (String.length s - n)%nat.
Proof.
  revert s; induction n as [|n IH]; intros s; simpl.
  - lia.
  - destruct s as [|c s]; simpl; [reflexivity | apply IH].
Qed.

Lemma string_length_app (a b : string) :
  String.length (a ++ b) = (String.length a + String.length b)%nat.
Proof. induction a as [|c a IH]; simpl; [reflexivity | now rewrite IH]. Qed.

Lemma prefix_length (t s : string) : prefix t s = true -> (String.length t <= String.length s)%nat.
Proof.
  intros H. apply prefix_app_iff in H. destruct H as [post ->].
  rewrite string_length_app. lia.
Qed.

Lemma fence_match_shorter (s r : string) :
  fence_match s = Some r -> (String.length r < String.length s)%nat.
Proof.
  unfold fence_match.
  destruct (prefix ("```json" ++ String nl EmptyString) s) eqn:E1;
    [intros H; apply prefix_length in E1; apply (f_equal (fun o => match o with Some x => String.length x | None => O end)) in H;
     cbv beta iota in H; rewrite <- H, str_drop_length; simpl in *; lia |].
  destruct (prefix "```json" s) eqn:E2;
    [intros H; apply prefix_length in E2; apply (f_equal (fun o => match o with Some x => String.length x | None => O end)) in H;
     cbv beta iota in H; rewrite <- H, str_drop_length; simpl in *; lia |].
  destruct (prefix (String nl "```") s) eqn:E3;
    [intros H; apply prefix_length in E3; apply (f_equal (fun o => match o with Some x => String.length x | None => O end)) in H;
     cbv beta iota in H; rewrite <- H, str_drop_length; simpl in *; lia |].
  destruct (prefix "```" s) eqn:E4;
    [intros H; apply prefix_length in E4; apply (f_equal (fun o => match o with Some x => String.length x | None => O end)) in H;
     cbv beta iota in H; rewrite <- H, str_drop_length; simpl in *; lia |].
  discriminate.
Qed.

Lemma strip_fences_aux_fuel (f1 f2 : nat) (s : string) :
  (String.length s <= f1)%nat -> (String.length s <= f2)%nat ->
  strip_fences_aux f1 s = strip_fences_aux f2 s.
Proof.
  revert f2 s; induction f1 as [|f1 IH]; intros f2 s H1 H2.
  - destruct s; simpl in H1; [| lia]. destruct f2; reflexivity.
  - destruct f2 as [|f2].
    + destruct s; simpl in H2; [reflexivity | lia].
    + simpl. destruct (fence_match s) as [r|] eqn:E.
      * apply fence_match_shorter in E. apply IH; lia.
      * destruct s as [|c r]; [reflexivity |]. simpl in H1, H2.
        f_equal. apply IH; lia.
Qed.

Lemma strip_fences_unfold (s : string) :
  strip_fences s =
    match fence_match s with
    | Some r => strip_fences r
    | None => match s with EmptyString => EmptyString | String c r => String c (strip_fences r) end
    end.
Proof.
  unfold strip_fences at 1.
  destruct s as [|c r]; [reflexivity |].
  cbn [String.length strip_fences_aux].
  destruct (fence_match (String c r)) as [r'|] eqn:E.
  - apply fence_match_shorter in E. simpl in E.
    unfold strip_fences. apply strip_fences_aux_fuel; lia.
  - reflexivity.
Qed.

Ltac split_chars :=
  repeat (cbn [prefix append str_drop option_map] in *;
    match goal with
    | |- context [ascii_dec ?a ?b] =>
        let E := fresh "E" in destruct (ascii_dec a b) as [E|E]; [subst | ]; try congruence
    | |- context [prefix _ (?p ++ _)] => is_var p; destruct p; try congruence
    | |- context [prefix _ ?p] => is_var p; destruct p; try congruence
    | |- context [str_drop _ ?p] => is_var p; destruct p; try congruence
    end).

Lemma fence_match_app (p : string) :
  p <> EmptyString -> p <> "```json" ->
  fence_match (p ++ String nl "```") = option_map (fun r => r ++ String nl "```") (fence_match p).
Proof.
  intros H1 H2. unfold fence_match, nl.
  split_chars; reflexivity.
Qed.

(** Deleting the closing fence: a trailing [\n```] never changes what is
    left of the text before it. *)
Lemma strip_fences_closing (p : string) :
  strip_fences (p ++ String nl "```") = strip_fences p.
Proof.
  remember (String.length p) as n eqn:Hn.
  revert p Hn. induction n as [n IH] using lt_wf_ind. intros p Hn.
  destruct (string_dec p EmptyString) as [->|H1]; [reflexivity |].
  destruct (string_dec p "```json") as [->|H2]; [reflexivity |].
  rewrite (strip_fences_unfold (p ++ _)), (strip_fences_unfold p), fence_match_app by assumption.
  destruct (fence_match p) as [r|] eqn:E; simpl.
  - apply fence_match_shorter in E. apply (IH (String.length r)); [lia | reflexivity].
  - destruct p as [|c p']; [contradiction |]. simpl.
    f_equal. apply (IH (String.length p')); [simpl in Hn; lia | reflexivity].
Qed.

Lemma strip_fences_opening (p : string) :
  strip_fences ("```json" ++ String nl p) = strip_fences p.
Proof.
  rewrite strip_fences_unfold. destruct p; reflexivity.
Qed.

Section FenceFacts.

Variable JSON_parse : string -> option json.

(** C9: [parseAIResponse] deletes the code-fence markers and trims before
    decoding, so a payload wrapped in a [```json] fenced block gives exactly
    the result of the bare payload, for every payload. *)
Theorem parse_fenced_payload (payload : string) :
  parseAIResponse JSON_parse ("```json" ++ String nl (payload ++ String nl "```")) =
  parseAIResponse JSON_parse payload.
Proof.
  unfold parseAIResponse, clean_response.
  rewrite strip_fences_opening, strip_fences_closing. reflexivity.
Qed.

End FenceFacts.

(** ** C6: the regex fallback *)

Section FallbackFacts.

Variable JSON_parse : string -> option json.

(** C6 (amended): the multi-network [parseAIResponse] (part_000) has no
    second-chance decoder: when [JSON.parse] of the fence-stripped, trimmed
    response throws, it fails with the malformed-response error.  The
    [to:]/[amount:]/[explanation:] regex fallback belongs to the
    single-network parser of index.ts: whenever its primary decoding fails,
    the result is that of the fallback, which succeeds exactly when all three
    patterns match. *)
Theorem parse_decoding_failure (r : string)
  (Hdec : JSON_parse (clean_response r) = None) :
  parseAIResponse JSON_parse r = Err MALFORMED_RESPONSE
  /\ (forall r' m, parse_primary_v1 JSON_parse r' = Err m ->
        parseAIResponse_v1 JSON_parse r' = parse_fallback_v1 r'
        /\ ((exists d, parseAIResponse_v1 JSON_parse r' = Ok d) <->
            (match_to r' <> None /\ match_amount r' <> None /\ match_explanation r' <> None))).
Proof.
  split.
  - unfold parseAIResponse. rewrite Hdec. not_understanding.
  - intros r' m Hp. unfold parseAIResponse_v1. rewrite Hp.
    split; [reflexivity |]. unfold parse_fallback_v1.
    destruct (match_to r'), (match_amount r'), (match_explanation r');
      split; intros H; try (destruct H as [d H]; discriminate);
      try (destruct H as [H1 [H2 H3]]; congruence);
      try (eexists; reflexivity);
      repeat split; discriminate.
Qed.

End FallbackFacts.

(** C6 (counterexample): a response in the [to:]/[amount:]/[explanation:]
    line format is not JSON; the fallback of index.ts would decode it, but
    the multi-network parser fails with the malformed-response error. *)
Lemma no_regex_fallback_in_multi_network_parser :
  json_parse (clean_response resp_lines) = None
  /\ parse_fallback_v1 resp_lines =
       Ok {| td_to := demo_recipient; td_amount := "0.01"; td_explanation := "send it" |}
  /\ parseAIResponse json_parse resp_lines = Err MALFORMED_RESPONSE.
Proof. vm_compute. repeat split. Qed.

Lemma parse_decoding_failure_witness :
  json_parse (clean_response resp_lines) = None
  /\ parseAIResponse json_parse resp_lines = Err MALFORMED_RESPONSE
  /\ (forall r' m, parse_primary_v1 json_parse r' = Err m ->
        parseAIResponse_v1 json_parse r' = parse_fallback_v1 r'
        /\ ((exists d, parseAIResponse_v1 json_parse r' = Ok d) <->
            (match_to r' <> None /\ match_amount r' <> None /\ match_explanation r' <> None))).
Proof.
  split; [vm_compute; reflexivity |].
  apply (parse_decoding_failure json_parse resp_lines). vm_compute. reflexivity.
Defined.

Lemma poll_updates_until (obs : nat -> string) (m k n : nat) :
  (forall j, (j < m)%nat -> obs (k + j)%nat = "Pending") -> obs (k + m)%nat <> "Pending" -> (m < n)%nat ->
  poll_updates obs k n = map (fun j => (5000 * Z.of_nat (S j), obs j)%Z) (seq k (S m)).
Proof.
  revert k n. induction m as [|m IH]; intros k n Hpend Hdone Hmn.
  - destruct n as [|n]; [lia |]. rewrite Nat.add_0_r in Hdone. simpl.
    destruct (String.eqb (obs k) "Pending") eqn:E; [apply String.eqb_eq in E; contradiction | reflexivity].
  - destruct n as [|n]; [lia |]. simpl.
    assert (Hk : obs k = "Pending") by (rewrite <- (Nat.add_0_r k); apply Hpend; lia).
    rewrite Hk, String.eqb_refl. f_equal. apply IH.
    + intros j Hj. replace (S k + j)%nat with (k + S j)%nat by lia. apply Hpend. lia.
    + replace (S k + m)%nat with (k + S m)%nat by lia. exact Hdone.
    + lia.
Qed.

(** ** The dispatcher: C1 and C8 *)

Section DispatchFacts.

Variable ChainState : Type.
Variable rpc_getBalance : ChainState -> result Z * ChainState.
Variable rpc_sendTransaction : ChainState -> string -> Z -> result string * ChainState.
Variable rpc_getTransactionReceipt : ChainState -> string -> result bool * ChainState.
Variable parseEther : string -> result Z.
Variable formatEther : Z -> string.

Local Abbreviation dispatch :=
  (dispatchOne rpc_getBalance rpc_sendTransaction rpc_getTransactionReceipt parseEther formatEther).
Local Abbreviation run :=
  (makeMultipleTransactions rpc_getBalance rpc_sendTransaction rpc_getTransactionReceipt
     parseEther formatEther).

(** A computation is local to network [n] when its value and the new state
    of [n] depend only on the state of [n], and it leaves every other
    network's state alone. *)
Definition local_to {A} (n : string) (m : M ChainState A) : Prop :=
  (forall s1 s2, world s1 n = world s2 n ->
     fst (m s1) = fst (m s2) /\ world (snd (m s1)) n = world (snd (m s2)) n)
  /\ (forall s k, k <> n -> world (snd (m s)) k = world s k).

Lemma local_ret {A} (n : string) (a : A) : local_to n (ret a).
Proof. split; [intros s1 s2 H; split; [reflexivity | exact H] | reflexivity]. Qed.

Lemma local_rpc {A} (n : string) (ev : event) (f : ChainState -> A * ChainState) :
  local_to n (rpc n ev f).
Proof.
  split.
  - intros s1 s2 H. unfold rpc. rewrite H.
    destruct (f (world s2 n)) as [a c]. simpl. unfold upd. rewrite String.eqb_refl. auto.
  - intros s k Hk. unfold rpc. destruct (f (world s n)) as [a c]. simpl. unfold upd.
    destruct (String.eqb k n) eqn:E; [apply String.eqb_eq in E; contradiction | reflexivity].
Qed.

Lemma local_bind {A B} (n : string) (m : M ChainState A) (k : A -> M ChainState B) :
  local_to n m -> (forall a, local_to n (k a)) -> local_to n (mbind m k).
Proof.
  intros [Hm Fm] Hk. split.
  - intros s1 s2 H. unfold mbind.
    specialize (Hm s1 s2 H).
    destruct (m s1) as [a1 t1], (m s2) as [a2 t2]. simpl in Hm. destruct Hm as [-> Hw].
    apply (proj1 (Hk a2)). exact Hw.
  - intros s k' Hk'. unfold mbind. specialize (Fm s k' Hk').
    destruct (m s) as [a t]. simpl in Fm. rewrite (proj2 (Hk a) t k' Hk'). exact Fm.
Qed.

Create HintDb local.
#[local] Hint Resolve local_ret local_rpc local_bind : local.

Lemma makeTransaction_local (to amount n : string) :
  local_to n (makeTransaction rpc_getBalance rpc_sendTransaction parseEther formatEther to amount n).
Proof.
  unfold makeTransaction. destruct (getNetwork n); auto with local.
  apply local_bind; [apply local_rpc |]. intros [balance|e]; [| apply local_ret].
  destruct (parseEther amount) as [value|e]; [| apply local_ret].
  destruct (balance <? value)%Z; auto with local.
Qed.

Lemma getTransactionStatus_local (hash n : string) :
  local_to n (getTransactionStatus rpc_getTransactionReceipt hash n).
Proof.
  unfold getTransactionStatus. destruct (getNetwork n); auto with local.
Qed.

Lemma dispatchOne_local (to : string) (req : NetworkRequest) :
  local_to (req_name req) (dispatch to req).
Proof.
  unfold dispatchOne. apply local_bind; [apply makeTransaction_local |].
  intros [hash|e]; [| apply local_ret].
  apply local_bind; [apply getTransactionStatus_local |].
  intros [status|e]; apply local_ret.
Qed.

Lemma dispatchOne_network (to : string) (req : NetworkRequest) (s : St ChainState) :
  dr_network (fst (dispatch to req s)) = req_name req.
Proof.
  unfold dispatchOne, mbind.
  destruct (makeTransaction _ _ _ _ _ _ _ s) as [[hash|e] s1]; [| reflexivity].
  destruct (getTransactionStatus _ _ _ s1) as [[status|e] s2]; reflexivity.
Qed.

Lemma run_cons (to : string) (req : NetworkRequest) (rest : list NetworkRequest) (s : St ChainState) :
  run to (req :: rest) s =
    (fst (dispatch to req s) :: fst (run to rest (snd (dispatch to req s))),
     snd (run to rest (snd (dispatch to req s)))).
Proof.
  simpl. unfold mbind at 1. destruct (dispatch to req s) as [d s1]. simpl.
  unfold mbind. destruct (run to rest s1) as [ds s2]. reflexivity.
Qed.

Lemma run_filter (to n : string) (reqs : list NetworkRequest) (s1 s2 : St ChainState) :
  world s1 n = world s2 n ->
  filter (fun d => String.eqb (dr_network d) n) (fst (run to reqs s1)) =
  fst (run to (filter (fun r => String.eqb (req_name r) n) reqs) s2).
Proof.
  revert s1 s2. induction reqs as [|req rest IH]; intros s1 s2 H; [reflexivity |].
  rewrite run_cons. cbn [fst filter]. rewrite dispatchOne_network.
  destruct (dispatchOne_local to req) as [Loc Frame].
  destruct (String.eqb (req_name req) n) eqn:E.
  - apply String.eqb_eq in E. subst n.
    rewrite run_cons. cbn [fst].
    destruct (Loc s1 s2 H) as [Hd Hw]. rewrite Hd. f_equal. apply IH. exact Hw.
  - apply IH. rewrite <- H. apply Frame.
    intros Heq. subst n. rewrite String.eqb_refl in E. discriminate.
Qed.

Lemma run_networks (to : string) (reqs : list NetworkRequest) (s : St ChainState) :
  map dr_network (fst (run to reqs s)) = map req_name reqs.
Proof.
  revert s. induction reqs as [|req rest IH]; intros s; [reflexivity |].
  rewrite run_cons. simpl. rewrite dispatchOne_network, IH. reflexivity.
Qed.

(** C1: [makeMultipleTransactions] gives one result per request, in the
    order of the requests and named after the request's network; and the
    results for any network [n] are exactly those of a batch holding only
    the requests for [n], whatever the requests for other networks are and
    however they fail (unknown network, insufficient funds, transport
    error), because each dispatch reads and changes only the state of its
    own network. *)
Theorem makeMultipleTransactions_per_request
  (to : string) (reqs : list NetworkRequest) (s : St ChainState) :
  List.length (fst (run to reqs s)) = List.length reqs
  /\ map dr_network (fst (run to reqs s)) = map req_name reqs
  /\ (forall n, filter (fun d => String.eqb (dr_network d) n) (fst (run to reqs s)) =
                fst (run to (filter (fun r => String.eqb (req_name r) n) reqs) s)).
Proof.
  split; [| split; [apply run_networks | intros n; apply run_filter; reflexivity]].
  rewrite <- (length_map dr_network), run_networks, length_map. reflexivity.
Qed.

Lemma receipt_queries_app (l1 l2 : list event) :
  receipt_queries (l1 ++ l2) = (receipt_queries l1 + receipt_queries l2)%nat.
Proof. unfold receipt_queries. now rewrite filter_app, length_app. Qed.

Lemma dispatchOne_trace (to : string) (req : NetworkRequest) (s : St ChainState) :
  exists new, trace (snd (dispatch to req s)) = (trace s ++ new)%list
    /\ receipt_queries new = (if is_sent (fst (dispatch to req s)) then 1 else 0)%nat
    /\ (forall h st, dr_result (fst (dispatch to req s)) = Sent h st -> In st tx_statuses).
Proof.
  unfold dispatchOne, makeTransaction, getTransactionStatus, mbind, rpc, ret.
  destruct (getNetwork (req_name req)) as [c| |] eqn:G; cbn [fst snd trace dr_result is_sent].
  - destruct (rpc_getBalance (world s (req_name req))) as [[balance|e] c1]; cbn [fst snd trace dr_result is_sent].
    2: { exists [EvGetBalance (req_name req)]. repeat split; try discriminate. }
    destruct (parseEther (req_amount req)) as [value|e]; cbn [fst snd trace dr_result is_sent].
    2: { exists [EvGetBalance (req_name req)]. repeat split; try discriminate. }
    destruct (balance <? value)%Z; cbn [fst snd trace dr_result is_sent].
    { exists [EvGetBalance (req_name req)]. repeat split; try discriminate. }
    destruct (rpc_sendTransaction _ _ _) as [[hash|e] c2]; cbn [fst snd trace dr_result is_sent].
    2: { exists [EvGetBalance (req_name req); EvSendTransaction (req_name req) to value].
         rewrite <- app_assoc. repeat split; try discriminate. }
    destruct (rpc_getTransactionReceipt _ _) as [r c3]; cbn [fst snd trace dr_result is_sent].
    exists [EvGetBalance (req_name req); EvSendTransaction (req_name req) to value;
            EvGetReceipt (req_name req) hash].
    rewrite <- !app_assoc. split; [reflexivity | split; [reflexivity |]].
    intros h st Hst. injection Hst as _ <-. unfold tx_statuses.
    destruct r as [[|]|m]; [| | destruct (includes m _)]; simpl; tauto.
  - exists []. rewrite app_nil_r. repeat split; discriminate.
  - exists []. rewrite app_nil_r. repeat split; discriminate.
Qed.

Lemma run_trace (to : string) (reqs : list NetworkRequest) (s : St ChainState) :
  exists new, trace (snd (run to reqs s)) = (trace s ++ new)%list
    /\ receipt_queries new = sent_count (fst (run to reqs s))
    /\ Forall (fun d => forall h st, dr_result d = Sent h st -> In st tx_statuses)
              (fst (run to reqs s)).
Proof.
  revert s. induction reqs as [|req rest IH]; intros s.
  - exists []. rewrite app_nil_r. repeat split. constructor.
  - rewrite run_cons. cbn [fst snd].
    destruct (dispatchOne_trace to req s) as (new1 & T1 & R1 & S1).
    destruct (IH (snd (dispatch to req s))) as (new2 & T2 & R2 & S2).
    exists (new1 ++ new2)%list. split; [rewrite T2, T1, app_assoc; reflexivity |].
    split; [| constructor; assumption].
    rewrite receipt_queries_app, R1, R2. unfold sent_count. simpl.
    destruct (is_sent _); reflexivity.
Qed.

Lemma makeTransaction_ok (to amount n : string) (s s1 : St ChainState) (h : string) :
  makeTransaction rpc_getBalance rpc_sendTransaction parseEther formatEther to amount n s = (Ok h, s1) ->
  (exists c, getNetwork n = PNetwork c)
  /\ exists v, trace s1 = (trace s ++ [EvGetBalance n; EvSendTransaction n to v])%list.
Proof.
  unfold makeTransaction, mbind, rpc, ret.
  destruct (getNetwork n) as [c| |] eqn:G; intros H; try discriminate H.
  destruct (rpc_getBalance (world s n)) as [[balance|e] c1]; [| discriminate H].
  destruct (parseEther amount) as [value|e]; [| discriminate H].
  destruct (balance <? value)%Z; [discriminate H |].
  revert H. cbv [world trace upd]. rewrite String.eqb_refl.
  destruct (rpc_sendTransaction c1 to value) as [r c2]. intros H. injection H as -> <-.
  split; [eauto | exists value; cbn; rewrite <- app_assoc; reflexivity].
Qed.

(** C8 (as amended): the multi-network dispatcher (part_000) checks the
    status of each submitted transaction exactly once, right after the
    submission, and records it as that one query returned it.  For every
    request: when [makeTransaction] returns a hash [h], its calls were the
    balance read and the send, and the dispatch then makes exactly one more
    call, the receipt query for [h] on the same network, and records as the
    status what index.ts's status check makes of that query's answer (Success,
    Failed, Pending or Unknown), with no re-check; when it fails, the error is
    recorded and no status is queried.  The batch dispatches each request
    once, in order, so over a whole batch the number of receipt queries
    equals the number of submitted transactions.  Only the single-network
    [main] of index.ts re-checks: with one check per 5-second tick, each
    finished before the next tick, it logs every tick up to and including the
    first non-Pending status and none after it. *)
Theorem status_checked_once_polled_in_v1 (to : string) (reqs : list NetworkRequest) (s : St ChainState) :
  (forall req s0,
     match makeTransaction rpc_getBalance rpc_sendTransaction parseEther formatEther
             to (req_amount req) (req_name req) s0 with
     | (Ok h, s1) =>
         (exists v, trace s1 =
            (trace s0 ++ [EvGetBalance (req_name req); EvSendTransaction (req_name req) to v])%list)
         /\ dispatch to req s0 =
              ({| dr_network := req_name req;
                  dr_result := Sent h (fst (getTransactionStatus_v1 rpc_getTransactionReceipt h
                                              (world s1 (req_name req)))) |},
               {| world := upd (world s1) (req_name req)
                             (snd (getTransactionStatus_v1 rpc_getTransactionReceipt h
                                     (world s1 (req_name req))));
                  trace := (trace s1 ++ [EvGetReceipt (req_name req) h])%list |})
     | (Err e, s1) =>
         dispatch to req s0 = ({| dr_network := req_name req; dr_result := Failed e |}, s1)
     end)
  /\ (forall req rest s0,
        run to (req :: rest) s0 =
          (fst (dispatch to req s0) :: fst (run to rest (snd (dispatch to req s0))),
           snd (run to rest (snd (dispatch to req s0)))))
  /\ (exists new, trace (snd (run to reqs s)) = (trace s ++ new)%list
     /\ receipt_queries new = sent_count (fst (run to reqs s))
     /\ Forall (fun d => forall h st, dr_result d = Sent h st -> In st tx_statuses)
               (fst (run to reqs s)))
  /\ (forall (obs : nat -> string) (m n : nat),
        (forall j, (j < m)%nat -> obs j = "Pending") -> obs m <> "Pending" -> (m < n)%nat ->
        poll_updates obs 0 n = map (fun j => (5000 * Z.of_nat (S j), obs j)%Z) (seq 0 (S m))).
Proof.
  split; [| split; [intros; apply run_cons | split; [apply run_trace |]]].
  - intros req s0. unfold dispatchOne. cbv zeta. unfold mbind.
    destruct (makeTransaction rpc_getBalance rpc_sendTransaction parseEther formatEther
                to (req_amount req) (req_name req) s0) as [[h|e] s1] eqn:E;
      [| reflexivity].
    destruct (makeTransaction_ok _ _ _ _ _ _ E) as ((c & G) & Ht).
    split; [exact Ht |].
    unfold getTransactionStatus, getTransactionStatus_v1, mbind, rpc, ret. rewrite G.
    destruct (rpc_getTransactionReceipt (world s1 (req_name req)) h) as [r c3]. reflexivity.
  - intros obs m n Hpend Hdone Hmn. apply poll_updates_until; [| exact Hdone | exact Hmn].
    intros j Hj. apply Hpend. exact Hj.
Qed.

End DispatchFacts.

(** C8 counterexample: a Sepolia request whose receipt is not mined yet is
    reported with status Pending after a single receipt query. *)
Lemma pending_status_reported_after_one_check :
  let r := makeMultipleTransactions demo_getBalance demo_sendTransaction demo_getTransactionReceipt
             parseEther_model formatEther_model demo_recipient [sepolia_request] (demo_st pow18) in
  fst r = [{| dr_network := "sepolia"; dr_result := Sent "0x0" "Pending" |}]
  /\ receipt_queries (trace (snd r)) = 1%nat.
Proof. vm_compute. split; reflexivity. Qed.

Lemma status_checked_once_polled_in_v1_witness :
  poll_updates (fun j => if (j <? 2)%nat then "Pending" else "Success") 0 5 =
    [(5000, "Pending"); (10000, "Pending"); (15000, "Success")]%Z.
Proof.
  pose proof (proj2 (proj2 (proj2 (status_checked_once_polled_in_v1 DemoChain demo_getBalance demo_sendTransaction
    demo_getTransactionReceipt parseEther_model formatEther_model demo_recipient [sepolia_request]
    (demo_st pow18))))
    (fun j => if (j <? 2)%nat then "Pending" else "Success") 2 5) as H.
  rewrite H; [reflexivity | | discriminate | lia].
  intros j Hj. destruct j as [|[|j]]; [reflexivity | reflexivity | lia].
Defined.

(** * Further properties of the code *)

(** ** Dispatch (part_000) and its single-network ancestor (index.ts) *)

Section DispatchMore.

Variable ChainState : Type.
Variable rpc_getBalance : ChainState -> result Z * ChainState.
Variable rpc_sendTransaction : ChainState -> string -> Z -> result string * ChainState.
Variable rpc_getTransactionReceipt : ChainState -> string -> result bool * ChainState.
Variable parseEther : string -> result Z.
Variable formatEther : Z -> string.

Local Abbreviation mt :=
  (makeTransaction rpc_getBalance rpc_sendTransaction parseEther formatEther).
Local Abbreviation gts := (getTransactionStatus rpc_getTransactionReceipt).
Local Abbreviation dispatch :=
  (dispatchOne rpc_getBalance rpc_sendTransaction rpc_getTransactionReceipt parseEther formatEther).
Local Abbreviation run :=
  (makeMultipleTransactions rpc_getBalance rpc_sendTransaction rpc_getTransactionReceipt
     parseEther formatEther).

Lemma send_events_app (l1 l2 : list event) :
  send_events (l1 ++ l2) = (send_events l1 + send_events l2)%nat.
Proof. unfold send_events. now rewrite filter_app, length_app. Qed.

Lemma makeTransaction_registered_events (to amount n : string) (c : NetworkConfig)
  (s : St ChainState) :
  getNetwork n = PNetwork c ->
  exists new, trace (snd (mt to amount n s)) = (trace s ++ EvGetBalance n :: new)%list
    /\ (new = [] \/ exists v, new = [EvSendTransaction n to v])
    /\ (forall v, new = [EvSendTransaction n to v] <->
          parseEther amount = Ok v
          /\ exists balance, fst (rpc_getBalance (world s n)) = Ok balance /\ (v <= balance)%Z).
Proof.
  intros Hreg. unfold makeTransaction, mbind, rpc, ret. rewrite Hreg.
  destruct (rpc_getBalance (world s n)) as [[balance|e] c1]; cbn [fst snd trace world].
  2: { exists []. split; [reflexivity | split; [left; reflexivity |]].
       intros v; split; [discriminate | intros (_ & b & Hb & _); discriminate]. }
  destruct (parseEther amount) as [value|e] eqn:P.
  2: { exists []. split; [reflexivity | split; [left; reflexivity |]].
       intros v; split; [discriminate | intros (Hv & _); discriminate]. }
  destruct (balance <? value)%Z eqn:L.
  - exists []. split; [reflexivity | split; [left; reflexivity |]].
    intros v; split; [discriminate |].
    intros (Hv & b & Hb & Hle). injection Hv as <-. injection Hb as <-.
    apply Z.ltb_lt in L. lia.
  - cbv [world trace upd]. rewrite String.eqb_refl.
    destruct (rpc_sendTransaction c1 to value) as [r c2]. cbn [fst snd trace].
    exists [EvSendTransaction n to value].
    split; [rewrite <- app_assoc; reflexivity | split; [right; eauto |]].
    intros v; split.
    + intros Hv. injection Hv as <-. split; [reflexivity |].
      exists balance. split; [reflexivity |]. apply Z.ltb_ge in L. exact L.
    + intros (Hv & _). injection Hv as <-. reflexivity.
Qed.


Lemma own_lookup_absent (kvs : list (string * NetworkConfig)) (n : string) :
  ~ In n (map fst kvs) -> own_lookup kvs n = None.
Proof.
  induction kvs as [|[k v] kvs IH]; intros H; [reflexivity |]. simpl in *.
  destruct (String.eqb k n) eqn:E; [apply String.eqb_eq in E; tauto | apply IH; tauto].
Qed.

Lemma getNetwork_undefined (n : string) :
  ~ In n getAvailableNetworks -> ~ In n object_prototype_props -> getNetwork n = PUndefined.
Proof.
  intros H1 H2. unfold getNetwork. rewrite own_lookup_absent by exact H1.
  destruct (existsb (String.eqb n) object_prototype_props) eqn:E; [| reflexivity].
  apply existsb_exists in E as (x & Hx & Ex). apply String.eqb_eq in Ex. subst x. contradiction.
Qed.

Lemma no_send_in (l : list event) (n to : string) (v : Z) :
  send_events l = 0%nat -> ~ In (EvSendTransaction n to v) l.
Proof.
  unfold send_events. intros H Hin. apply length_zero_iff_nil in H.
  assert (Hf : In (EvSendTransaction n to v) (filter is_send_event l)) by (apply filter_In; auto).
  rewrite H in Hf. exact Hf.
Qed.

Lemma makeTransaction_events (to amount n : string) (s : St ChainState) :
  exists new, trace (snd (mt to amount n s)) = (trace s ++ new)%list
    /\ (send_events new <= 1)%nat
    /\ (forall n' to' v, In (EvSendTransaction n' to' v) new ->
          n' = n /\ to' = to /\ parseEther amount = Ok v /\ exists c, getNetwork n = PNetwork c).
Proof.
  destruct (getNetwork n) as [c| |] eqn:G.
  - destruct (makeTransaction_registered_events to amount n c s G) as (new & T & Hnew & Hiff).
    destruct Hnew as [-> | (v & ->)].
    + exists [EvGetBalance n]. split; [exact T |].
      split; [unfold send_events; simpl; lia | intros n' to' v' [H|[]]; discriminate].
    + exists [EvGetBalance n; EvSendTransaction n to v]. split; [exact T |].
      split; [unfold send_events; simpl; lia |].
      intros n' to' v' [H|[H|[]]]; [discriminate |]. injection H as <- <- <-.
      destruct (proj1 (Hiff v) eq_refl) as [Hv _]. eauto.
  - unfold makeTransaction. rewrite G. exists []. rewrite app_nil_r.
    split; [reflexivity | split; [unfold send_events; simpl; lia | intros ? ? ? []]].
  - unfold makeTransaction. rewrite G. exists []. rewrite app_nil_r.
    split; [reflexivity | split; [unfold send_events; simpl; lia | intros ? ? ? []]].
Qed.

Lemma getTransactionStatus_events (hash n : string) (s : St ChainState) :
  exists new, trace (snd (gts hash n s)) = (trace s ++ new)%list /\ send_events new = 0%nat.
Proof.
  unfold getTransactionStatus, mbind, rpc, ret.
  destruct (getNetwork n); try (exists []; rewrite app_nil_r; split; reflexivity).
  destruct (rpc_getTransactionReceipt (world s n) hash) as [r c1]. cbn [fst snd trace].
  exists [EvGetReceipt n hash]. split; reflexivity.
Qed.

Lemma dispatchOne_events (to : string) (req : NetworkRequest) (s : St ChainState) :
  exists new, trace (snd (dispatch to req s)) = (trace s ++ new)%list
    /\ (send_events new <= 1)%nat
    /\ (forall n' to' v, In (EvSendTransaction n' to' v) new ->
          n' = req_name req /\ to' = to /\ parseEther (req_amount req) = Ok v
          /\ exists c, getNetwork n' = PNetwork c).
Proof.
  pose proof (makeTransaction_events to (req_amount req) (req_name req) s) as (new1 & T1 & S1 & I1).
  unfold dispatchOne. cbv zeta. unfold mbind at 1.
  destruct (mt to (req_amount req) (req_name req) s) as [[hash|e] s1]; cbn [snd] in T1.
  - unfold mbind.
    pose proof (getTransactionStatus_events hash (req_name req) s1) as (new2 & T2 & S2).
    destruct (gts hash (req_name req) s1) as [[st|e] s2]; cbn [snd] in T2;
    exists (new1 ++ new2)%list; rewrite send_events_app, S2, Nat.add_0_r;
    (split; [unfold ret; cbn [snd]; rewrite T2, T1, app_assoc; reflexivity | split; [exact S1 |]]);
    intros n' to' v Hin; (apply in_app_or in Hin as [Hin|Hin];
      [destruct (I1 _ _ _ Hin) as (-> & -> & Hv & c & Hc); eauto
      | apply no_send_in in Hin; [contradiction | exact S2]]).
  - exists new1. split; [unfold ret; exact T1 | split; [exact S1 |]].
    intros n' to' v Hin. destruct (I1 _ _ _ Hin) as (-> & -> & Hv & c & Hc); eauto.
Qed.

Lemma makeMultipleTransactions_events (to : string) (reqs : list NetworkRequest) (s : St ChainState) :
  exists new, trace (snd (run to reqs s)) = (trace s ++ new)%list
    /\ (send_events new <= List.length reqs)%nat
    /\ (forall n to' v, In (EvSendTransaction n to' v) new ->
          to' = to /\ (exists c, getNetwork n = PNetwork c)
          /\ exists req, In req reqs /\ req_name req = n /\ parseEther (req_amount req) = Ok v).
Proof.
  revert s. induction reqs as [|req rest IH]; intros s.
  - exists []. rewrite app_nil_r. split; [reflexivity | split; [unfold send_events; simpl; lia | intros ? ? ? []]].
  - rewrite run_cons. cbn [snd].
    destruct (dispatchOne_events to req s) as (new1 & T1 & S1 & I1).
    destruct (IH (snd (dispatch to req s))) as (new2 & T2 & S2 & I2).
    exists (new1 ++ new2)%list. split; [rewrite T2, T1, app_assoc; reflexivity |].
    split; [rewrite send_events_app; simpl; lia |].
    intros n to' v Hin. apply in_app_or in Hin as [Hin|Hin].
    + destruct (I1 _ _ _ Hin) as (-> & -> & Hv & Hc).
      split; [reflexivity | split; [exact Hc |]]. exists req. simpl. auto.
    + destruct (I2 _ _ _ Hin) as (-> & Hc & r & Hr & Hn & Hv).
      split; [reflexivity | split; [exact Hc |]]. exists r. simpl. auto.
Qed.

(** [makeTransaction] on a registered network reads the balance once and
    then sends at most one transaction: to [to], on that network, for
    exactly [parseEther amount], and only when the balance read is at least
    that value. *)
Theorem makeTransaction_sends_only_when_funded (to amount n : string) (c : NetworkConfig)
  (s : St ChainState) (Hreg : getNetwork n = PNetwork c) :
  exists new, trace (snd (mt to amount n s)) = (trace s ++ EvGetBalance n :: new)%list
    /\ (new = [] \/ exists v, new = [EvSendTransaction n to v])
    /\ (forall v, new = [EvSendTransaction n to v] <->
          parseEther amount = Ok v
          /\ exists balance, fst (rpc_getBalance (world s n)) = Ok balance /\ (v <= balance)%Z).
Proof. exact (makeTransaction_registered_events to amount n c s Hreg). Qed.

(** A request for a name that is neither registered nor a member of
    [Object.prototype] fails with "Network <name> not configured" before any
    RPC call: [makeTransaction] and [getTransactionStatus] return that error
    and leave every network's state and the call log unchanged, and the
    dispatcher records it as that request's failure. *)
Theorem unconfigured_network_no_rpc (to amount hash n : string) (s : St ChainState)
  (Hn1 : ~ In n getAvailableNetworks) (Hn2 : ~ In n object_prototype_props) :
  mt to amount n s = (Err ("Network " ++ n ++ " not configured"), s)
  /\ gts hash n s = (Err ("Network " ++ n ++ " not configured"), s)
  /\ (forall req, req_name req = n ->
        dispatch to req s =
          ({| dr_network := n; dr_result := Failed ("Network " ++ n ++ " not configured") |}, s)).
Proof.
  pose proof (getNetwork_undefined n Hn1 Hn2) as G.
  split; [unfold makeTransaction; rewrite G; reflexivity |].
  split; [unfold getTransactionStatus; rewrite G; reflexivity |].
  intros req <-. unfold dispatchOne, makeTransaction, mbind. cbv zeta. rewrite G. reflexivity.
Qed.

(** Over a whole batch, [makeMultipleTransactions] sends at most one
    transaction per request, every one of them to the batch's recipient [to],
    on a registered network that some request names, for exactly
    [parseEther] of that request's amount. *)
Theorem makeMultipleTransactions_sends_only_requested (to : string) (reqs : list NetworkRequest)
  (s : St ChainState) :
  exists new, trace (snd (run to reqs s)) = (trace s ++ new)%list
    /\ (send_events new <= List.length reqs)%nat
    /\ (forall n to' v, In (EvSendTransaction n to' v) new ->
          to' = to /\ (exists c, getNetwork n = PNetwork c)
          /\ exists req, In req reqs /\ req_name req = n /\ parseEther (req_amount req) = Ok v).
Proof. apply makeMultipleTransactions_events. Qed.

(** On a registered network, part_000's [getTransactionStatus] never fails:
    it is index.ts's single-network status check run on that network's
    client, with one receipt query logged and no other network touched. *)
Theorem getTransactionStatus_registered_is_v1 (hash n : string) (c : NetworkConfig)
  (s : St ChainState) (Hreg : getNetwork n = PNetwork c) :
  gts hash n s =
    (Ok (fst (getTransactionStatus_v1 rpc_getTransactionReceipt hash (world s n))),
     {| world := upd (world s) n (snd (getTransactionStatus_v1 rpc_getTransactionReceipt hash (world s n)));
        trace := (trace s ++ [EvGetReceipt n hash])%list |}).
Proof.
  unfold getTransactionStatus, getTransactionStatus_v1, mbind, rpc, ret. rewrite Hreg.
  destruct (rpc_getTransactionReceipt (world s n) hash) as [r c1]. reflexivity.
Qed.

(** On a registered network, part_000's [makeTransaction] behaves as the
    single-network [makeTransaction] of index.ts run on that network's
    client: the same calls, the same new state of the network, and the same
    transaction hash; the two differ only in the text of their errors. *)
Theorem makeTransaction_registered_is_v1 (to amount n : string) (c : NetworkConfig)
  (s : St ChainState) (Hreg : getNetwork n = PNetwork c) :
  world (snd (mt to amount n s)) n =
    snd (makeTransaction_v1 ChainState rpc_getBalance rpc_sendTransaction parseEther formatEther to amount (world s n))
  /\ (forall h, fst (mt to amount n s) = Ok h <->
        fst (makeTransaction_v1 ChainState rpc_getBalance rpc_sendTransaction parseEther formatEther
               to amount (world s n)) = Ok h).
Proof.
  unfold makeTransaction, makeTransaction_v1, mbind, rpc, ret. rewrite Hreg.
  destruct (rpc_getBalance (world s n)) as [[balance|e] c1];
    [destruct (parseEther amount) as [value|e]; [destruct (balance <? value)%Z |] |];
    cbv [world trace upd fst snd]; rewrite ?String.eqb_refl;
    try (destruct (rpc_sendTransaction c1 to value) as [r c2]; rewrite ?String.eqb_refl);
    (split; [reflexivity | intros h; split; first [discriminate | exact (fun H => H)]]).
Qed.

End DispatchMore.

(** ** The parser of part_000 *)

Lemma parse_checks_ok_iff (p v : json) :
  parse_checks p = Ok v <->
  v = p /\ error_truthy p = false
  /\ field_truthy p "to" = true /\ field_truthy p "networks" = true
  /\ field_truthy p "explanation" = true /\ recipient_ok p = true.
Proof.
  destruct p as [| b | z | str | l | kvs];
    try (cbn; split; [discriminate | intros (_ & _ & H & _); discriminate]).
  unfold parse_checks, validate_fields, error_truthy, field_truthy, recipient_ok, regex_test_address.
  cbn [get_prop bind].
  destruct (truthy (obj_get kvs "error")) eqn:E.
  { split; [destruct (option_map js_to_string (obj_get kvs "error")) as [[?|]|]; discriminate
           | intros (_ & H & _); discriminate]. }
  destruct (truthy (obj_get kvs "to")) eqn:T; cbn [negb orb];
    [| split; [discriminate | intros (_ & _ & H & _); discriminate]].
  destruct (truthy (obj_get kvs "networks")) eqn:N; cbn [negb orb];
    [| split; [discriminate | intros (_ & _ & _ & H & _); discriminate]].
  destruct (truthy (obj_get kvs "explanation")) eqn:X; cbn [negb orb];
    [| split; [discriminate | intros (_ & _ & _ & _ & H & _); discriminate]].
  destruct (obj_get kvs "to") as [x|]; [| discriminate].
  destruct (js_to_string x) as [a|]; cbn [bind];
    [| split; [discriminate | intros (_ & _ & _ & _ & _ & H); discriminate]].
  destruct (address_re a); cbn [negb];
    [| split; [discriminate | intros (_ & _ & _ & _ & _ & H); discriminate]].
  split; [intros H; injection H as <-; repeat split | intros (-> & _); reflexivity].
Qed.

Section ParserMore.

Variable JSON_parse : string -> option json.

(** [parseAIResponse] fails with exactly one of two messages: the
    understanding failure (which [main] recognises by its text) or the
    generic malformed-response message; every other error is folded into
    the latter. *)
Theorem parseAIResponse_two_errors (r m : string) (H : parseAIResponse JSON_parse r = Err m) :
  m = UNDERSTANDING_FAILURE \/ m = MALFORMED_RESPONSE.
Proof.
  revert H. unfold parseAIResponse, catch_parse.
  destruct (match JSON_parse (clean_response r) with
            | Some parsed => parse_checks parsed
            | None => Err "SyntaxError: Unexpected token in JSON" end) as [v|m']; [discriminate |].
  destruct (String.eqb m' UNDERSTANDING_FAILURE) eqn:E; intros H; injection H as <-.
  - left. apply String.eqb_eq. exact E.
  - right. reflexivity.
Qed.

(** [parseAIResponse] succeeds exactly when the cleaned response decodes,
    its [error] field is falsy, its [to], [networks] and [explanation]
    fields are truthy and [to] converts to a string matching the address
    pattern; it then returns the decoded value itself, unchanged (extra
    members such as [warnings] included). *)
Theorem parseAIResponse_ok_iff (r : string) (v : json) :
  parseAIResponse JSON_parse r = Ok v <->
  JSON_parse (clean_response r) = Some v /\ error_truthy v = false
  /\ field_truthy v "to" = true /\ field_truthy v "networks" = true
  /\ field_truthy v "explanation" = true /\ recipient_ok v = true.
Proof.
  unfold parseAIResponse.
  destruct (JSON_parse (clean_response r)) as [p|].
  - unfold catch_parse. destruct (parse_checks p) as [w|m] eqn:P.
    + apply parse_checks_ok_iff in P as (-> & P). split.
      * intros H; injection H as <-. auto.
      * intros (H & _). injection H as ->. reflexivity.
    + split; [destruct (String.eqb m UNDERSTANDING_FAILURE); discriminate |].
      intros (H & Hrest). injection H as ->.
      assert (Hok : parse_checks v = Ok v) by (apply parse_checks_ok_iff; auto).
      congruence.
  - split; [discriminate | intros (H & _); discriminate].
Qed.

(** The [to] field is never required to be a string: a one-element array
    holding a valid address converts to that address, passes the check, and
    is returned as an array. *)
Theorem parseAIResponse_accepts_array_recipient (r a : string) (kvs : list (string * json))
  (Hdec : JSON_parse (clean_response r) = Some (JObj kvs))
  (Hto : obj_get kvs "to" = Some (JArr [JStr a])) (Haddr : address_re a = true)
  (Herr : truthy (obj_get kvs "error") = false)
  (Hnets : truthy (obj_get kvs "networks") = true) (Hexpl : truthy (obj_get kvs "explanation") = true) :
  parseAIResponse JSON_parse r = Ok (JObj kvs).
Proof.
  unfold parseAIResponse. rewrite Hdec. unfold catch_parse.
  assert (H : parse_checks (JObj kvs) = Ok (JObj kvs)).
  { apply parse_checks_ok_iff. unfold error_truthy, field_truthy, recipient_ok. cbn [get_prop].
    rewrite Hto, Herr, Hnets, Hexpl. cbn. rewrite Haddr. repeat split. }
  rewrite H. reflexivity.
Qed.

End ParserMore.

Lemma fence_match_no_backtick (s : string) : no_backtick s -> fence_match s = None.
Proof.
  intros H. destruct s as [|c1 s']; [reflexivity |].
  assert (H1 : c1 <> "`"%char) by (apply H; left; reflexivity).
  unfold fence_match. cbn [prefix append].
  destruct (ascii_dec "`" c1) as [E|_]; [congruence |].
  destruct (ascii_dec nl c1) as [_|_]; [| reflexivity].
  destruct s' as [|c2 t]; [reflexivity |].
  assert (H2 : c2 <> "`"%char) by (apply H; right; left; reflexivity).
  cbn [prefix]. destruct (ascii_dec "`" c2); [congruence | reflexivity].
Qed.

Lemma strip_fences_aux_no_backtick (fuel : nat) (s : string) :
  no_backtick s -> strip_fences_aux fuel s = s.
Proof.
  revert s. induction fuel as [|f IH]; intros s H; [reflexivity |].
  simpl. rewrite fence_match_no_backtick by exact H.
  destruct s as [|c r]; [reflexivity |]. f_equal. apply IH.
  intros c' Hc. apply H. right. exact Hc.
Qed.

(** A response with no backtick in it is only trimmed: the fence removal of
    [parseAIResponse] leaves it as it is. *)
Theorem clean_response_without_fences (r : string) (H : no_backtick r) :
  clean_response r = trim r.
Proof. unfold clean_response, strip_fences. now rewrite strip_fences_aux_no_backtick. Qed.

(** ** The regex fallback and the amount cleanup of index.ts *)

Lemma take_while_forallb (p : ascii -> bool) (s : string) :
  forallb p (list_ascii_of_string (take_while p s)) = true.
Proof.
  induction s as [|c r IH]; [reflexivity |]. simpl.
  destruct (p c) eqn:E; [simpl; rewrite E, IH; reflexivity | reflexivity].
Qed.

Lemma re_search_some (lit : string) (after : string -> option string) (s cap : string) :
  re_search lit after s = Some cap -> exists t, after t = Some cap.
Proof.
  induction s as [|c r IH]; intros H; cbn [re_search] in H.
  - destruct (prefix lit EmptyString); [| discriminate].
    destruct (after (str_drop (String.length lit) EmptyString)) eqn:E;
      [injection H as <-; eauto | discriminate].
  - destruct (prefix lit (String c r)); [| exact (IH H)].
    destruct (after (str_drop (String.length lit) (String c r))) eqn:E;
      [injection H as <-; eauto | exact (IH H)].
Qed.

Lemma class_capture_some (cls : ascii -> bool) (t cap : string) :
  class_capture cls t = Some cap ->
  cap <> EmptyString /\ forallb cls (list_ascii_of_string cap) = true.
Proof.
  unfold class_capture. destruct (String.eqb (take_while cls (trim_start t)) EmptyString) eqn:E;
    [discriminate |].
  intros H. injection H as <-. split; [apply String.eqb_neq; exact E | apply take_while_forallb].
Qed.

Lemma last_non_terminator_some (s : string) (c : ascii) :
  last_non_terminator s = Some c -> is_line_terminator c = false.
Proof.
  induction s as [|c' r IH]; simpl; [discriminate |].
  destruct (last_non_terminator r) as [c''|]; [intros H; injection H as <-; apply IH; reflexivity |].
  destruct (is_line_terminator c') eqn:E; [discriminate | intros H; injection H as <-; exact E].
Qed.

Lemma line_capture_some (t cap : string) : line_capture t = Some cap -> single_line cap = true.
Proof.
  unfold line_capture. destruct (trim_start t) as [|c r] eqn:E.
  - destruct (last_non_terminator t) as [c|] eqn:L; [| discriminate].
    intros H. injection H as <-. unfold single_line. simpl.
    rewrite (last_non_terminator_some t c L). reflexivity.
  - intros H. injection H as <-. unfold single_line.
    exact (take_while_forallb (fun c => negb (is_line_terminator c)) (String c r)).
Qed.

Lemma trim_start_forallb (p : ascii -> bool) (s : string) :
  forallb p (list_ascii_of_string s) = true -> forallb p (list_ascii_of_string (trim_start s)) = true.
Proof.
  induction s as [|c r IH]; [reflexivity |]. simpl. intros H.
  destruct (is_ws c); [apply IH; apply andb_true_iff in H; tauto | exact H].
Qed.

Lemma trim_end_forallb (p : ascii -> bool) (s : string) :
  forallb p (list_ascii_of_string s) = true -> forallb p (list_ascii_of_string (trim_end s)) = true.
Proof.
  induction s as [|c r IH]; [reflexivity |]. simpl. intros H. apply andb_true_iff in H as [Hc Hr].
  destruct (is_ws c && String.eqb (trim_end r) EmptyString); [reflexivity |].
  simpl. rewrite Hc, (IH Hr). reflexivity.
Qed.

Lemma trim_forallb (p : ascii -> bool) (s : string) :
  forallb p (list_ascii_of_string s) = true -> forallb p (list_ascii_of_string (trim s)) = true.
Proof. intros H. apply trim_end_forallb, trim_start_forallb, H. Qed.

(** When the regex fallback of index.ts succeeds, the recipient is a
    non-empty run of [0-9a-fA-Fx], the amount a non-empty run of digits and
    dots, and the explanation a single line. *)
Theorem parse_fallback_v1_captures (r : string) (d : TxDetails) (H : parse_fallback_v1 r = Ok d) :
  td_to d <> EmptyString /\ forallb to_class (list_ascii_of_string (td_to d)) = true
  /\ td_amount d <> EmptyString /\ forallb amount_class (list_ascii_of_string (td_amount d)) = true
  /\ single_line (td_explanation d) = true.
Proof.
  revert H. unfold parse_fallback_v1.
  destruct (match_to r) as [to|] eqn:T; [| discriminate].
  destruct (match_amount r) as [amount|] eqn:A; [| discriminate].
  destruct (match_explanation r) as [expl|] eqn:X; [| discriminate].
  intros H. injection H as <-. cbn [td_to td_amount td_explanation].
  apply re_search_some in T as (t1 & T). apply class_capture_some in T as [T1 T2].
  apply re_search_some in A as (t2 & A). apply class_capture_some in A as [A1 A2].
  apply re_search_some in X as (t3 & X). apply line_capture_some in X.
  repeat split; try assumption. apply trim_forallb. exact X.
Qed.

Lemma amount_class_char (c : ascii) :
  amount_class c = true -> is_ws c = false /\ lower_char c <> "e"%char.
Proof.
  destruct c as [[] [] [] [] [] [] [] []]; vm_compute; intros H;
    first [discriminate H | split; [reflexivity | discriminate]].
Qed.

Lemma strip_eth_decimal_app (d t : string) :
  forallb amount_class (list_ascii_of_string d) = true -> strip_eth (d ++ t) = d ++ strip_eth t.
Proof.
  induction d as [|c r IH]; [reflexivity |]. simpl. intros H. apply andb_true_iff in H as [Hc Hr].
  destruct (amount_class_char c Hc) as [Hws He].
  assert (E : eth_suffix (String c (r ++ t)) = false).
  { unfold eth_suffix. cbn [trim_start]. rewrite Hws. cbn [substring toLowerCase prefix].
    destruct (ascii_dec "e" (lower_char c)) as [E|_]; [congruence | reflexivity]. }
  rewrite E. f_equal. apply IH. exact Hr.
Qed.

Lemma string_app_nil_r (s : string) : (s ++ EmptyString)%string = s.
Proof. induction s as [|c r IH]; [reflexivity | simpl; rewrite IH; reflexivity]. Qed.

Section AmountV1.

Variable JSON_parse : string -> option json.

(** When the model's JSON is decoded and its [amount] is a decimal number,
    bare or followed by [ETH] (with or without a space, in either case),
    index.ts's [parseAIResponse] returns the bare number, and [to] and
    [explanation] as they are. *)
Theorem parseAIResponse_v1_amount (r to d u expl : string) (kvs : list (string * json))
  (Hdec : JSON_parse r = Some (JObj kvs))
  (Hto : obj_get kvs "to" = Some (JStr to))
  (Hamount : obj_get kvs "amount" = Some (JStr (d ++ u)))
  (Hexpl : obj_get kvs "explanation" = Some (JStr expl))
  (Hd : forallb amount_class (list_ascii_of_string d) = true)
  (Hu : In u [EmptyString; "ETH"; " ETH"; "eth"; " eth"]) :
  parseAIResponse_v1 JSON_parse r = Ok {| td_to := to; td_amount := d; td_explanation := expl |}.
Proof.
  unfold parseAIResponse_v1, parse_primary_v1, json_string_field. rewrite Hdec. cbn [get_prop bind].
  rewrite Hto, Hamount, Hexpl. cbn [bind].
  rewrite strip_eth_decimal_app by exact Hd.
  assert (Hs : strip_eth u = EmptyString)
    by (simpl in Hu; repeat destruct Hu as [<- | Hu]; [reflexivity .. | contradiction]).
  rewrite Hs, string_app_nil_r. reflexivity.
Qed.

End AmountV1.

(** ** Network names in the user's input (part_000) *)

Lemma lower_char_idem (c : ascii) : lower_char (lower_char c) = lower_char c.
Proof. destruct c as [[] [] [] [] [] [] [] []]; reflexivity. Qed.

Lemma toLowerCase_idem (s : string) : toLowerCase (toLowerCase s) = toLowerCase s.
Proof. induction s as [|c r IH]; [reflexivity | simpl; rewrite lower_char_idem, IH; reflexivity]. Qed.

Lemma getAvailableNetworks_NoDup : NoDup getAvailableNetworks.
Proof. vm_compute. repeat constructor; simpl; intuition discriminate. Qed.

(** [getNetworksFromInput] ignores the case of the input, and returns
    distinct registered network names. *)
Theorem getNetworksFromInput_case_insensitive (input : string) :
  getNetworksFromInput (toLowerCase input) = getNetworksFromInput input
  /\ NoDup (getNetworksFromInput input)
  /\ incl (getNetworksFromInput input) getAvailableNetworks.
Proof.
  unfold getNetworksFromInput. cbv zeta. rewrite toLowerCase_idem.
  split; [reflexivity |].
  destruct (includes (toLowerCase input) "both" || includes (toLowerCase input) "all").
  - split; [exact getAvailableNetworks_NoDup | intros x Hx; exact Hx].
  - split; [apply NoDup_filter, getAvailableNetworks_NoDup |].
    intros x Hx. apply filter_In in Hx. tauto.
Qed.

(** ** Status polling of index.ts *)

Lemma poll_updates_pending (obs : nat -> string) (k n : nat) :
  (forall j, (j < n)%nat -> obs (k + j)%nat = "Pending") ->
  poll_updates obs k n = map (fun j => (5000 * Z.of_nat (S j), "Pending")%Z) (seq k n).
Proof.
  revert k. induction n as [|n IH]; intros k H; [reflexivity |].
  simpl. assert (Hk : obs k = "Pending") by (rewrite <- (Nat.add_0_r k); apply H; lia).
  rewrite Hk, String.eqb_refl. f_equal. apply IH.
  intros j Hj. replace (S k + j)%nat with (k + S j)%nat by lia. apply H. lia.
Qed.

(** While every check answers Pending, the polling of index.ts never stops:
    within [n] ticks it logs [n] Pending lines, one every 5 seconds. *)
Theorem poll_never_stops_while_pending (obs : nat -> string) (n : nat)
  (H : forall j, (j < n)%nat -> obs j = "Pending") :
  poll_updates obs 0 n = map (fun j => (5000 * Z.of_nat (S j), "Pending")%Z) (seq 0 n).
Proof. apply poll_updates_pending. intros j Hj. apply H. exact Hj. Qed.

(** ** Witnesses *)

Lemma makeTransaction_sends_only_when_funded_witness :
  getNetwork "sepolia" = PNetwork sepolia_config
  /\ exists new,
       trace (snd (makeTransaction demo_getBalance demo_sendTransaction parseEther_model formatEther_model
                     demo_recipient "0.01" "sepolia" (demo_st pow18))) =
         (trace (demo_st pow18) ++ EvGetBalance "sepolia" :: new)%list
       /\ (new = [] \/ exists v, new = [EvSendTransaction "sepolia" demo_recipient v])
       /\ (forall v, new = [EvSendTransaction "sepolia" demo_recipient v] <->
             parseEther_model "0.01" = Ok v
             /\ exists balance, fst (demo_getBalance (world (demo_st pow18) "sepolia")) = Ok balance
                  /\ (v <= balance)%Z).
Proof.
  split; [reflexivity |].
  apply makeTransaction_sends_only_when_funded with (c := sepolia_config). reflexivity.
Defined.

Lemma unconfigured_network_no_rpc_witness :
  ~ In "foo" getAvailableNetworks /\ ~ In "foo" object_prototype_props
  /\ makeTransaction demo_getBalance demo_sendTransaction parseEther_model formatEther_model
       demo_recipient "0.01" "foo" (demo_st pow18) =
       (Err ("Network " ++ "foo" ++ " not configured"), demo_st pow18)
  /\ getTransactionStatus demo_getTransactionReceipt "0x0" "foo" (demo_st pow18) =
       (Err ("Network " ++ "foo" ++ " not configured"), demo_st pow18)
  /\ (forall req, req_name req = "foo" ->
        dispatchOne demo_getBalance demo_sendTransaction demo_getTransactionReceipt parseEther_model
          formatEther_model demo_recipient req (demo_st pow18) =
        ({| dr_network := "foo"; dr_result := Failed ("Network " ++ "foo" ++ " not configured") |},
         demo_st pow18)).
Proof.
  assert (H1 : ~ In "foo" getAvailableNetworks) by (vm_compute; intuition discriminate).
  assert (H2 : ~ In "foo" object_prototype_props) by (vm_compute; intuition discriminate).
  split; [exact H1 | split; [exact H2 |]].
  apply (unconfigured_network_no_rpc DemoChain demo_getBalance demo_sendTransaction
           demo_getTransactionReceipt parseEther_model formatEther_model).
  - exact H1.
  - exact H2.
Defined.

Lemma getTransactionStatus_registered_is_v1_witness :
  getNetwork "sepolia" = PNetwork sepolia_config
  /\ getTransactionStatus demo_getTransactionReceipt "0x0" "sepolia" (demo_st pow18) =
       (Ok (fst (getTransactionStatus_v1 demo_getTransactionReceipt "0x0" (world (demo_st pow18) "sepolia"))),
        {| world := upd (world (demo_st pow18)) "sepolia"
                      (snd (getTransactionStatus_v1 demo_getTransactionReceipt "0x0"
                              (world (demo_st pow18) "sepolia")));
           trace := (trace (demo_st pow18) ++ [EvGetReceipt "sepolia" "0x0"])%list |}).
Proof.
  split; [reflexivity |].
  apply getTransactionStatus_registered_is_v1 with (c := sepolia_config). reflexivity.
Defined.

Lemma makeTransaction_registered_is_v1_witness :
  getNetwork "sepolia" = PNetwork sepolia_config
  /\ world (snd (makeTransaction demo_getBalance demo_sendTransaction parseEther_model formatEther_model
                   demo_recipient "0.01" "sepolia" (demo_st pow18))) "sepolia" =
       snd (makeTransaction_v1 DemoChain demo_getBalance demo_sendTransaction parseEther_model
              formatEther_model demo_recipient "0.01" (world (demo_st pow18) "sepolia"))
  /\ (forall h, fst (makeTransaction demo_getBalance demo_sendTransaction parseEther_model formatEther_model
                       demo_recipient "0.01" "sepolia" (demo_st pow18)) = Ok h <->
        fst (makeTransaction_v1 DemoChain demo_getBalance demo_sendTransaction parseEther_model
               formatEther_model demo_recipient "0.01" (world (demo_st pow18) "sepolia")) = Ok h).
Proof.
  split; [reflexivity |].
  apply makeTransaction_registered_is_v1 with (c := sepolia_config). reflexivity.
Defined.

Lemma parseAIResponse_two_errors_witness :
  parseAIResponse json_parse resp_error = Err UNDERSTANDING_FAILURE
  /\ (UNDERSTANDING_FAILURE = UNDERSTANDING_FAILURE \/ UNDERSTANDING_FAILURE = MALFORMED_RESPONSE).
Proof.
  split; [vm_compute; reflexivity |].
  apply (parseAIResponse_two_errors json_parse resp_error). vm_compute. reflexivity.
Defined.

Lemma parseAIResponse_accepts_array_recipient_witness :
  json_parse (clean_response resp_array_recipient) = Some (JObj array_recipient_members)
  /\ parseAIResponse json_parse resp_array_recipient = Ok (JObj array_recipient_members).
Proof.
  split; [vm_compute; reflexivity |].
  apply parseAIResponse_accepts_array_recipient with (a := demo_recipient); vm_compute; reflexivity.
Defined.

Lemma clean_response_without_fences_witness :
  no_backtick (String nl " {} ") /\ clean_response (String nl " {} ") = trim (String nl " {} ").
Proof.
  assert (H : no_backtick (String nl " {} ")).
  { intros c Hc. simpl in Hc. repeat destruct Hc as [<- | Hc]; try (vm_compute; discriminate).
    contradiction. }
  split; [exact H | apply clean_response_without_fences; exact H].
Defined.

Lemma parse_fallback_v1_captures_witness :
  let d := {| td_to := demo_recipient; td_amount := "0.01"; td_explanation := "send it" |} in
  parse_fallback_v1 resp_lines = Ok d
  /\ (td_to d <> EmptyString /\ forallb to_class (list_ascii_of_string (td_to d)) = true
      /\ td_amount d <> EmptyString /\ forallb amount_class (list_ascii_of_string (td_amount d)) = true
      /\ single_line (td_explanation d) = true).
Proof.
  intros d. assert (H : parse_fallback_v1 resp_lines = Ok d) by (vm_compute; reflexivity).
  split; [exact H | apply (parse_fallback_v1_captures resp_lines d H)].
Defined.

Lemma parseAIResponse_v1_amount_witness :
  json_parse resp_amount_eth = Some (JObj amount_eth_members)
  /\ parseAIResponse_v1 json_parse resp_amount_eth =
       Ok {| td_to := demo_recipient; td_amount := "0.5"; td_explanation := "Sending" |}.
Proof.
  split; [vm_compute; reflexivity |].
  apply parseAIResponse_v1_amount with (kvs := amount_eth_members) (u := " ETH");
    first [vm_compute; reflexivity | simpl; auto 10].
Defined.

Lemma poll_never_stops_while_pending_witness :
  (forall j, (j < 3)%nat -> (fun _ : nat => "Pending") j = "Pending")
  /\ poll_updates (fun _ => "Pending") 0 3 =
       map (fun j => (5000 * Z.of_nat (S j), "Pending")%Z) (seq 0 3).
Proof.
  split; [intros; reflexivity |].
  apply poll_never_stops_while_pending. intros; reflexivity.
Defined.
